(** * filtered_logger: redaction of PII in log lines

    A shallow embedding of [0x00-personal_data/filtered_logger.py]:
    - Python strings are lists of characters ([str]);
    - the pattern text is built exactly as [filter_datum] builds it and is
      then read by a model of the fragment of Python's [re] syntax that such
      a pattern can use (literals, groups, alternation, character sets,
      the dot and the greedy star), with [re.sub]'s left-to-right scan;
    - the base [logging.Formatter] is a %-template interpreter, once as
      the line it returns for the attributes of a record and once, in
      [Obj], as the call on the record object that it writes on;
    - [main] runs against a data source given as a script of fetch results
      and produces a trace of the effects it performs; [get_logger] is the
      logger of the first call in a process, and [More.get_logger_in] the
      one of a later call.

    The embedding comes first, then the vocabulary in which the
    specification speaks of messages (tokens, keys, occurrences of a field
    name), then the lemmas that tie the two together, and last one theorem
    for each claim about the program. *)

From Stdlib Require Import String Ascii List Bool Arith Lia.
Import ListNotations.

Set Implicit Arguments.

(** ** Python strings *)

Definition str := list ascii.

(** String literals are read as character lists. *)
Coercion list_ascii_of_string : string >-> list.

Local Open Scope string_scope.
Local Open Scope list_scope.

Module Py.

(** [sep.join(xs)] *)
Fixpoint join (sep : str) (xs : list str) : str :=
  match xs with
  | [] => []
  | [x] => x
  | x :: rest => x ++ sep ++ join sep rest
  end.

(** [s.startswith(p)] *)
Fixpoint startswith (p s : str) : bool :=
  match p, s with
  | [], _ => true
  | a :: p', b :: s' => Ascii.eqb a b && startswith p' s'
  | _ :: _, [] => false
  end.

(** [c in s] for a one-character [c] *)
Definition mem (c : ascii) (s : str) : bool := existsb (Ascii.eqb c) s.

(** [s.ljust(n)] *)
Definition ljust (n : nat) (s : str) : str :=
  s ++ repeat " "%char (n - length s).

End Py.

(** ** The fragment of [re] *)

Module Re.

(** Parsed patterns.  A set item is a range [(lo, hi)]; a single character
    [c] is the range [(c, c)]. *)
Inductive regex : Type :=
| Eps
| Chr (c : ascii)
| Dot
| CSet (negate : bool) (items : list (ascii * ascii))
| Cat (r1 r2 : regex)
| Alt (r1 r2 : regex)
| Grp (n : nat) (r : regex)
| Star (r : regex).

(** *** Reading a pattern (sre_parse) *)

Record frame := Frame { f_grp : nat; f_alts : list regex; f_seq : list regex }.

(** Where the reader is: in the pattern proper, or inside a set
    ([SetOpen] just after the bracket, [SetStart] before the first item,
    [SetPending c] after a literal that may start a range, [SetDash c]
    after that literal and a dash). *)
Inductive mode : Type :=
| Normal
| SetOpen
| SetStart (negate : bool)
| SetItems (negate : bool) (items : list (ascii * ascii))
| SetPending (negate : bool) (items : list (ascii * ascii)) (c : ascii)
| SetDash (negate : bool) (items : list (ascii * ascii)) (c : ascii).

(** [p_alts] and [p_seq] hold the finished alternatives and the items of
    the current alternative of the innermost open group, latest first. *)
Record pstate := PState {
  p_mode : mode;
  p_stack : list frame;
  p_alts : list regex;
  p_seq : list regex;
  p_next : nat
}.

Definition mkseq (items_rev : list regex) : regex :=
  fold_left (fun acc r => match acc with Eps => r | _ => Cat r acc end)
            items_rev Eps.

Fixpoint mkalt (alts : list regex) : regex :=
  match alts with
  | [] => Eps
  | [r] => r
  | r :: rest => Alt r (mkalt rest)
  end.

Definition close_alts (alts_rev seq_rev : list regex) : regex :=
  mkalt (rev (mkseq seq_rev :: alts_rev)).

Definition single_char (r : regex) : bool :=
  match r with
  | Chr _ | Dot | CSet _ _ => true
  | _ => false
  end.

Definition push_item (st : pstate) (r : regex) : pstate :=
  PState Normal (p_stack st) (p_alts st) (r :: p_seq st) (p_next st).

Definition set_mode (st : pstate) (m : mode) : pstate :=
  PState m (p_stack st) (p_alts st) (p_seq st) (p_next st).

Definition close_set (st : pstate) (negate : bool)
           (items_rev : list (ascii * ascii)) : pstate :=
  push_item st (CSet negate (rev items_rev)).

(** One character of the pattern.  [None] is a pattern that [re] rejects
    (re.error) or that uses syntax outside the fragment (escapes, lazy or
    counted repeats, anchors, group extensions, a repeat of a group). *)
Definition step (st : pstate) (c : ascii) : option pstate :=
  match p_mode st with
  | Normal =>
      if Ascii.eqb c "(" then
        Some (PState Normal
                     (Frame (p_next st) (p_alts st) (p_seq st) :: p_stack st)
                     [] [] (S (p_next st)))
      else if Ascii.eqb c ")" then
        match p_stack st with
        | [] => None
        | Frame n alts seq :: stack =>
            Some (PState Normal stack alts
                         (Grp n (close_alts (p_alts st) (p_seq st)) :: seq)
                         (p_next st))
        end
      else if Ascii.eqb c "|" then
        Some (PState Normal (p_stack st)
                     (mkseq (p_seq st) :: p_alts st) [] (p_next st))
      else if Ascii.eqb c "[" then Some (set_mode st SetOpen)
      else if Ascii.eqb c "*" then
        match p_seq st with
        | r :: seq =>
            if single_char r
            then Some (PState Normal (p_stack st) (p_alts st)
                              (Star r :: seq) (p_next st))
            else None
        | [] => None
        end
      else if Ascii.eqb c "." then Some (push_item st Dot)
      else if Ascii.eqb c "\" || Ascii.eqb c "+" || Ascii.eqb c "?"
              || Ascii.eqb c "{" || Ascii.eqb c "^" || Ascii.eqb c "$"
      then None
      else Some (push_item st (Chr c))
  | SetOpen =>
      if Ascii.eqb c "^" then Some (set_mode st (SetStart true))
      else if Ascii.eqb c "\" then None
      else Some (set_mode st (SetPending false [] c))
  | SetStart negate =>
      if Ascii.eqb c "\" then None
      else Some (set_mode st (SetPending negate [] c))
  | SetItems negate items =>
      if Ascii.eqb c "]" then Some (close_set st negate items)
      else if Ascii.eqb c "\" then None
      else Some (set_mode st (SetPending negate items c))
  | SetPending negate items c1 =>
      if Ascii.eqb c "-" then Some (set_mode st (SetDash negate items c1))
      else if Ascii.eqb c "]" then Some (close_set st negate ((c1, c1) :: items))
      else if Ascii.eqb c "\" then None
      else Some (set_mode st (SetPending negate ((c1, c1) :: items) c))
  | SetDash negate items c1 =>
      if Ascii.eqb c "]"
      then Some (close_set st negate (("-"%char, "-"%char) :: (c1, c1) :: items))
      else if Ascii.eqb c "\" then None
      else if (nat_of_ascii c1 <=? nat_of_ascii c)%nat
      then Some (set_mode st (SetItems negate ((c1, c) :: items)))
      else None
  end.

Fixpoint steps (st : pstate) (p : str) : option pstate :=
  match p with
  | [] => Some st
  | c :: p' => match step st c with
               | Some st' => steps st' p'
               | None => None
               end
  end.

Definition init : pstate := PState Normal [] [] [] 1.

Definition finish (st : pstate) : option regex :=
  match p_mode st, p_stack st with
  | Normal, [] => Some (close_alts (p_alts st) (p_seq st))
  | _, _ => None
  end.

(** [re.compile(pattern)] *)
Definition compile (pattern : str) : option regex :=
  match steps init pattern with
  | Some st => finish st
  | None => None
  end.

(** *** Matching (backtracking, first alternative first, greedy star) *)

Definition in_range (c : ascii) (it : ascii * ascii) : bool :=
  (nat_of_ascii (fst it) <=? nat_of_ascii c)%nat
  && (nat_of_ascii c <=? nat_of_ascii (snd it))%nat.

Definition newline : ascii := ascii_of_nat 10.

(** The characters a one-character pattern accepts. *)
Definition accepts (r : regex) (c : ascii) : bool :=
  match r with
  | Chr c' => Ascii.eqb c' c
  | Dot => negb (Ascii.eqb c newline)
  | CSet negate items => xorb negate (existsb (in_range c) items)
  | _ => false
  end.

(** Captured groups, latest first. *)
Definition caps := list (nat * str).

Section Match.
Variable A : Type.

Fixpoint star_m (p : ascii -> bool) (s : str) (k : str -> option A)
  : option A :=
  match s with
  | c :: s' =>
      if p c
      then match star_m p s' k with
           | Some x => Some x
           | None => k s
           end
      else k s
  | [] => k s
  end.

Fixpoint m (r : regex) (s : str) (cs : caps)
         (k : str -> caps -> option A) : option A :=
  match r with
  | Eps => k s cs
  | Chr _ | Dot | CSet _ _ =>
      match s with
      | c :: s' => if accepts r c then k s' cs else None
      | [] => None
      end
  | Cat r1 r2 => m r1 s cs (fun s' cs' => m r2 s' cs' k)
  | Alt r1 r2 =>
      match m r1 s cs k with
      | Some x => Some x
      | None => m r2 s cs k
      end
  | Grp n r1 =>
      m r1 s cs
        (fun s' cs' => k s' ((n, firstn (length s - length s') s) :: cs'))
  | Star r1 =>
      if single_char r1
      then star_m (accepts r1) s (fun s' => k s' cs)
      else None
  end.
End Match.

(** A match object: the matched length and the groups. *)
Record match_obj := Match { m_len : nat; m_caps : caps }.

(** A match of [r] at the start of [s]; with [must_advance] an empty
    match is refused, as [re.sub] asks after an empty match. *)
Definition match_at (r : regex) (s : str) (must_advance : bool)
  : option match_obj :=
  m r s []
    (fun s' cs =>
       let n := length s - length s' in
       if must_advance && (n =? 0)%nat then None else Some (Match n cs)).

(** [m.group(n)]: [None] when the group took no part in the match. *)
Fixpoint group (cs : caps) (n : nat) : option str :=
  match cs with
  | [] => None
  | (k, v) :: rest => if (k =? n)%nat then Some v else group rest n
  end.

(** [re.sub(pattern, repl, s)] with a callable [repl]: [skip] characters
    of the current match are still to be passed over. *)
Fixpoint sub_loop (r : regex) (repl : match_obj -> str) (s : str)
         (skip : nat) : str :=
  match skip with
  | S n =>
      match s with
      | _ :: s' => sub_loop r repl s' n
      | [] => []
      end
  | O =>
      let copy := match s with
                  | c :: s' => c :: sub_loop r repl s' 0
                  | [] => []
                  end in
      let replace mo :=
        match m_len mo with
        | S n => Some (repl mo ++ match s with
                                  | _ :: s' => sub_loop r repl s' n
                                  | [] => []
                                  end)
        | O => None
        end in
      match match_at r s false with
      | None => copy
      | Some mo =>
          match replace mo with
          | Some out => out
          | None =>
              repl mo ++
              match match_at r s true with
              | Some mo' => match replace mo' with
                            | Some out => out
                            | None => copy
                            end
              | None => copy
              end
          end
      end
  end.

Definition sub (r : regex) (repl : match_obj -> str) (s : str) : str :=
  sub_loop r repl s 0.

End Re.

(** ** filtered_logger.py *)

Definition PII_FIELDS : list str :=
  ["name" : str; "email" : str; "phone" : str; "ssn" : str; "password" : str].

(** [f"{x}"] for an optional string *)
Definition fstr (x : option str) : str :=
  match x with
  | Some v => v
  | None => "None"
  end.

(** The pattern text, as [filter_datum] formats it: the names joined by
    the bar in a first group, the equals sign, and in a second group any
    run of characters that are not in the separator. *)
Definition pattern (fields : list str) (separator : str) : str :=
  "(" ++ Py.join "|" fields ++ ")=([^" ++ separator ++ "]*)".

(** [filter_datum]: every match is replaced by its first group, the equals
    sign and the redaction.  [None] is a pattern that [re] does not
    compile, or one outside the fragment of [Re]. *)
Definition filter_datum (fields : list str) (redaction message separator : str)
  : option str :=
  match Re.compile (pattern fields separator) with
  | Some r =>
      Some (Re.sub r
              (fun mo => fstr (Re.group (Re.m_caps mo) 1) ++ "=" ++ redaction)
              message)
  | None => None
  end.

(** *** logging.Formatter with the %-style template *)

(** The attributes of a [logging.LogRecord] that the template reads, as
    [Formatter.format] sees them: [message] is [record.getMessage()] and
    [asctime] the rendered creation time.  Records carry no exception or
    stack information, as [logger.info(message)] makes them. *)
Record LogRecord := mkRecord {
  name : str;
  levelname : str;
  asctime : str;
  message : str
}.

Module Logging.

Definition str_eqb (a b : str) : bool :=
  if list_eq_dec Ascii.ascii_dec a b then true else false.

(** [record.__dict__[key]] *)
Definition attr (r : LogRecord) (key : str) : option str :=
  if str_eqb key "name" then Some (name r)
  else if str_eqb key "levelname" then Some (levelname r)
  else if str_eqb key "asctime" then Some (asctime r)
  else if str_eqb key "message" then Some (message r)
  else None.

Definition digit (c : ascii) : option nat :=
  let n := nat_of_ascii c in
  if ((48 <=? n) && (n <=? 57))%nat then Some (n - 48) else None.

(** Reading a conversion [%(key)-Ns]: in the text, after the percent
    sign, in the key, in the flags and width. *)
Inductive fmode : Type :=
| FText
| FPercent
| FKey (key_rev : str)
| FSpec (key : str) (minus : bool) (width : nat).

Definition pad (minus : bool) (width : nat) (v : str) : str :=
  if minus then Py.ljust width v
  else repeat " "%char (width - length v) ++ v.

(** [fmt % record.__dict__], for the conversions [%(key)s] with an
    optional [-] flag and width, and [%%]. *)
Fixpoint percent (fmt : str) (md : fmode) (r : LogRecord) : option str :=
  match fmt with
  | [] => match md with FText => Some [] | _ => None end
  | c :: rest =>
      match md with
      | FText =>
          if Ascii.eqb c "%" then percent rest FPercent r
          else option_map (cons c) (percent rest FText r)
      | FPercent =>
          if Ascii.eqb c "(" then percent rest (FKey []) r
          else if Ascii.eqb c "%"
               then option_map (cons c) (percent rest FText r)
               else None
      | FKey key_rev =>
          if Ascii.eqb c ")" then percent rest (FSpec (rev key_rev) false 0) r
          else percent rest (FKey (c :: key_rev)) r
      | FSpec key minus width =>
          if Ascii.eqb c "s" then
            match attr r key, percent rest FText r with
            | Some v, Some out => Some (pad minus width v ++ out)
            | _, _ => None
            end
          else if Ascii.eqb c "-" && (width =? 0)%nat
               then percent rest (FSpec key true width) r
               else match digit c with
                    | Some d => percent rest (FSpec key minus (10 * width + d)) r
                    | None => None
                    end
      end
  end.

(** [logging.Formatter(fmt).format(record)] *)
Definition Formatter_format (fmt : str) (record : LogRecord) : option str :=
  percent fmt FText record.

End Logging.

(** *** class RedactingFormatter *)

Record RedactingFormatter := mkFormatter { fields : list str }.

Definition REDACTION : str := "***".
Definition FORMAT : str :=
  "[HOLBERTON] %(name)s %(levelname)s %(asctime)-15s: %(message)s".
Definition SEPARATOR : str := ";".

(** [RedactingFormatter.format]: the line of the base formatter, filtered.
    This is the string returned; what the call writes on the record is
    in [Obj.format] below. *)
Definition format (self : RedactingFormatter) (record : LogRecord)
  : option str :=
  match Logging.Formatter_format FORMAT record with
  | Some line => filter_datum (fields self) REDACTION line SEPARATOR
  | None => None
  end.

(** *** The record as an object *)

(** A [logging.LogRecord] as the object that a handler hands to its
    formatter, and that every handler of a logger is handed in turn.
    [obj_created] is the creation time as [formatTime] renders it and
    [obj_msg] the message, the arguments being empty, as
    [logger.info(msg)] makes a record; [obj_exc_info] is the exception
    information as [formatException] renders it.  The attributes
    [message] and [asctime] are absent until a formatter writes them. *)
Record RecordObj := mkObj {
  obj_name : str;
  obj_levelname : str;
  obj_created : str;
  obj_msg : str;
  obj_exc_info : option str;
  obj_exc_text : option str;
  obj_stack_info : option str;
  obj_message : option str;
  obj_asctime : option str
}.

Module Obj.

(** [record.__dict__[key]] on the object *)
Definition attr (o : RecordObj) (key : str) : option str :=
  if Logging.str_eqb key "name" then Some (obj_name o)
  else if Logging.str_eqb key "levelname" then Some (obj_levelname o)
  else if Logging.str_eqb key "asctime" then obj_asctime o
  else if Logging.str_eqb key "message" then obj_message o
  else None.

(** [fmt % record.__dict__], as [Logging.percent], on the object *)
Fixpoint percent (fmt : str) (md : Logging.fmode) (o : RecordObj)
  : option str :=
  match fmt with
  | [] => match md with Logging.FText => Some [] | _ => None end
  | c :: rest =>
      match md with
      | Logging.FText =>
          if Ascii.eqb c "%" then percent rest Logging.FPercent o
          else option_map (cons c) (percent rest Logging.FText o)
      | Logging.FPercent =>
          if Ascii.eqb c "(" then percent rest (Logging.FKey []) o
          else if Ascii.eqb c "%"
               then option_map (cons c) (percent rest Logging.FText o)
               else None
      | Logging.FKey key_rev =>
          if Ascii.eqb c ")"
          then percent rest (Logging.FSpec (rev key_rev) false 0) o
          else percent rest (Logging.FKey (c :: key_rev)) o
      | Logging.FSpec key minus width =>
          if Ascii.eqb c "s" then
            match attr o key, percent rest Logging.FText o with
            | Some v, Some out => Some (Logging.pad minus width v ++ out)
            | _, _ => None
            end
          else if Ascii.eqb c "-" && (width =? 0)%nat
               then percent rest (Logging.FSpec key true width) o
               else match Logging.digit c with
                    | Some d =>
                        percent rest (Logging.FSpec key minus (10 * width + d)) o
                    | None => None
                    end
      end
  end.

(** [s.find(p) >= 0] *)
Fixpoint contains (p s : str) : bool :=
  Py.startswith p s
  || match s with
     | [] => false
     | _ :: s' => contains p s'
     end.

(** [Formatter.usesTime] *)
Definition usesTime (fmt : str) : bool := contains "%(asctime)" fmt.

(** An optional string that is neither [None] nor empty. *)
Definition truthy (x : option str) : bool :=
  match x with
  | Some (_ :: _) => true
  | _ => false
  end.

(** [if s[-1:] != "\n": s = s + "\n"] *)
Definition end_line (s : str) : str :=
  match rev s with
  | c :: _ => if Ascii.eqb c "010" then s else s ++ ["010"%char]
  | [] => ["010"%char]
  end.

(** [logging.Formatter(fmt).format(record)]: the record after the call
    and the string returned, or no string when the template asks for an
    attribute that the record has not. *)
Definition Formatter_format (fmt : str) (o : RecordObj)
  : RecordObj * option str :=
  let o1 :=
    mkObj (obj_name o) (obj_levelname o) (obj_created o) (obj_msg o)
          (obj_exc_info o) (obj_exc_text o) (obj_stack_info o)
          (Some (obj_msg o)) (obj_asctime o) in
  let o2 :=
    if usesTime fmt
    then mkObj (obj_name o1) (obj_levelname o1) (obj_created o1) (obj_msg o1)
               (obj_exc_info o1) (obj_exc_text o1) (obj_stack_info o1)
               (obj_message o1) (Some (obj_created o1))
    else o1 in
  match percent fmt Logging.FText o2 with
  | None => (o2, None)
  | Some s =>
      let o3 :=
        match obj_exc_info o2 with
        | Some text =>
            if truthy (obj_exc_text o2) then o2
            else mkObj (obj_name o2) (obj_levelname o2) (obj_created o2)
                       (obj_msg o2) (obj_exc_info o2) (Some text)
                       (obj_stack_info o2) (obj_message o2) (obj_asctime o2)
        | None => o2
        end in
      let s1 :=
        if truthy (obj_exc_text o3)
        then end_line s ++ fstr (obj_exc_text o3)
        else s in
      let s2 :=
        if truthy (obj_stack_info o3)
        then end_line s1 ++ fstr (obj_stack_info o3)
        else s1 in
      (o3, Some s2)
  end.

(** [RedactingFormatter.format] on the object: the base formatter runs
    first, on the caller's record, and its line is filtered. *)
Definition format (self : RedactingFormatter) (o : RecordObj)
  : RecordObj * option str :=
  let (o', s) := Formatter_format FORMAT o in
  (o', match s with
       | Some line => filter_datum (fields self) REDACTION line SEPARATOR
       | None => None
       end).

(** The record that [logger.info(msg)] makes. *)
Definition made (name levelname created msg : str) : RecordObj :=
  mkObj name levelname created msg None None None None None.

End Obj.

(** *** The driving program *)

(** What the program does to the world, in order.  [EConnect] and
    [ECursor] are acquisitions that succeeded; [ELog] is a line written by
    the stream handler; [EHandleError] is [Handler.handleError]. *)
Inductive event : Type :=
| EConnect (user password host : str) (database : option str)
| ECursor
| EExecute (query : str)
| ELog (line : str)
| EHandleError
| ECloseCursor
| ECloseDb.

Inductive exn : Type :=
| ConnectError
| ExecuteError
| FetchError
| IndexError.

(** The collaborators: the environment variables, the data source (does
    connecting succeed, does the query, the column names, what each fetch
    of the cursor gives: a row of rendered values or an error) and the
    clock (the rendered time of the n-th record). *)
Record World := mkWorld {
  getenv : str -> option str;
  connect_ok : bool;
  execute_ok : bool;
  description : list str;
  fetches : list (option (list str));
  clock : nat -> str
}.

(** A computation gives the trace of its effects and a result or the
    exception that ended it. *)
Definition M (A : Type) : Type := (list event * (exn + A))%type.

Definition ret {A} (a : A) : M A := ([], inr a).
Definition raise {A} (e : exn) : M A := ([], inl e).
Definition tell (ev : event) : M unit := ([ev], inr tt).
Definition bind {A B} (c : M A) (k : A -> M B) : M B :=
  match c with
  | (t, inl e) => (t, inl e)
  | (t, inr a) => let (t', r) := k a in (t ++ t', r)
  end.

Notation "c ;;; k" := (bind c (fun _ => k))
  (at level 61, right associativity).

Definition getenv_default (w : World) (key default : str) : str :=
  match getenv w key with
  | Some v => v
  | None => default
  end.

Definition get_db (w : World) : M unit :=
  let db_user := getenv_default w "PERSONAL_DATA_DB_USERNAME" "root" in
  let db_password := getenv_default w "PERSONAL_DATA_DB_PASSWORD" "" in
  let db_host := getenv_default w "PERSONAL_DATA_DB_HOST" "localhost" in
  let db_name := getenv w "PERSONAL_DATA_DB_NAME" in
  if connect_ok w
  then tell (EConnect db_user db_password db_host db_name)
  else raise ConnectError.

(** The logger [user_data] at level INFO, not propagating, with its stream
    handlers, each with its formatter. *)
Record Logger := mkLogger { logger_name : str; handlers : list RedactingFormatter }.

(** [get_logger] as the first call in a process: the logger has the one
    handler that this call adds. *)
Definition get_logger : Logger :=
  mkLogger "user_data" [mkFormatter PII_FIELDS].

(** [StreamHandler.emit] *)
Definition emit (fmt : RedactingFormatter) (record : LogRecord) : M unit :=
  match format fmt record with
  | Some line => tell (ELog line)
  | None => tell EHandleError
  end.

Fixpoint call_handlers (hs : list RedactingFormatter) (record : LogRecord)
  : M unit :=
  match hs with
  | [] => ret tt
  | h :: rest => emit h record ;;; call_handlers rest record
  end.

(** [logger.info(msg)], the record being made at time [now] *)
Definition info (logger : Logger) (now : str) (msg : str) : M unit :=
  call_handlers (handlers logger)
                (mkRecord (logger_name logger) "INFO" now msg).

(** The generator [f"{fields[i]}={row[i]}" for i in range(len(fields))] *)
Fixpoint pairs (columns row : list str) (i n : nat) : exn + list str :=
  match n with
  | O => inr []
  | S n' =>
      match nth_error columns i, nth_error row i with
      | Some k, Some v =>
          match pairs columns row (S i) n' with
          | inr rest => inr ((k ++ "=" ++ v) :: rest)
          | inl e => inl e
          end
      | _, _ => inl IndexError
      end
  end.

Definition row_message (columns row : list str) : exn + str :=
  match pairs columns row 0 (length columns) with
  | inr ps => inr (Py.join "; " ps)
  | inl e => inl e
  end.

(** [for row in cursor: ...], [n] rows having been logged *)
Fixpoint rows_loop (w : World) (logger : Logger) (columns : list str)
         (fs : list (option (list str))) (n : nat) : M unit :=
  match fs with
  | [] => ret tt
  | None :: _ => raise FetchError
  | Some row :: rest =>
      match row_message columns row with
      | inl e => raise e
      | inr msg =>
          info logger (clock w n) msg ;;;
          rows_loop w logger columns rest (S n)
      end
  end.

Definition main (w : World) : M unit :=
  get_db w ;;;
  tell ECursor ;;;
  (if execute_ok w then tell (EExecute "SELECT * FROM users;")
   else raise ExecuteError) ;;;
  let columns := description w in
  let logger := get_logger in
  rows_loop w logger columns (fetches w) 0 ;;;
  tell ECloseCursor ;;;
  tell ECloseDb.

(** The connection and the cursor that a trace leaves open. *)
Fixpoint open_after (t : list event) (conn cursor : bool) : bool * bool :=
  match t with
  | [] => (conn, cursor)
  | EConnect _ _ _ _ :: t' => open_after t' true cursor
  | ECursor :: t' => open_after t' conn true
  | ECloseCursor :: t' => open_after t' conn false
  | ECloseDb :: t' => open_after t' false cursor
  | _ :: t' => open_after t' conn cursor
  end.

(** * The vocabulary of the specification *)

Module Spec.

(** The longest prefix of [s] whose characters satisfy [p], and the rest. *)
Fixpoint take_while (p : ascii -> bool) (s : str) : str :=
  match s with
  | c :: s' => if p c then c :: take_while p s' else []
  | [] => []
  end.

Fixpoint drop_while (p : ascii -> bool) (s : str) : str :=
  match s with
  | c :: s' => if p c then drop_while p s' else s
  | [] => []
  end.

(** [s.split(c)]: the tokens of a message. *)
Fixpoint split (c : ascii) (s : str) : list str :=
  match s with
  | [] => [[]]
  | a :: s' =>
      if Ascii.eqb a c then [] :: split c s'
      else match split c s' with
           | t :: ts => (a :: t) :: ts
           | [] => [[a]]
           end
  end.

(** Characters that stand for themselves in a pattern. *)
Definition special (c : ascii) : bool := Py.mem c "()|[*.\+?{^$".
Definition plain_name (f : str) : bool := forallb (fun c => negb (special c)) f.

(** Characters that stand for themselves inside a set. *)
Definition set_special (c : ascii) : bool := Py.mem c "\]-".
Definition plain_separator (sep : str) : bool :=
  match sep with
  | [] => false
  | _ => forallb (fun c => negb (set_special c)) sep
  end.

(** A configuration as the specification has it: every field name is a
    literal key (no character that [re] reads as an operator, no separator
    inside it), and the separator is one literal character other than the
    equals sign. *)
Definition well_formed (fields : list str) (c : ascii) : bool :=
  forallb (fun f => plain_name f && negb (Py.mem c f)) fields
  && negb (set_special c) && negb (Ascii.eqb c "=").

(** Field names that can be the key of a [key=value] token. *)
Definition key_names (fields : list str) : bool :=
  forallb (fun f => negb (Py.mem "=" f)) fields.

(** ['|'.join(fields)] reads as one alternative per name, and as the
    single empty alternative when there is no name. *)
Definition alternatives (fields : list str) : list str :=
  match fields with
  | [] => [[]]
  | _ => fields
  end.

(** The first name, in the order of the list, that stands at the start
    of [s] followed by the equals sign. *)
Definition find_field (alts : list str) (s : str) : option str :=
  find (fun f => Py.startswith (f ++ "=") s) alts.

(** A character of a value: any character not in the separator. *)
Definition value_char (separator : str) (c : ascii) : bool :=
  negb (Py.mem c separator).

(** The leftmost place of a token where a field name followed by the
    equals sign stands, and that name. *)
Fixpoint first_occurrence (alts : list str) (tok : str) : option (nat * str) :=
  match find_field alts tok with
  | Some f => Some (0, f)
  | None =>
      match tok with
      | [] => None
      | _ :: t =>
          match first_occurrence alts t with
          | Some (i, f) => Some (S i, f)
          | None => None
          end
      end
  end.

(** Redaction as the specification words it, token by token: the text up
    to and including the first [name=] is kept and the rest of the token,
    its value, is replaced by the mask; a token without such a place is
    kept as it is. *)
Definition redact_token (alts : list str) (mask tok : str) : str :=
  match first_occurrence alts tok with
  | Some (i, f) => firstn i tok ++ f ++ "=" ++ mask
  | None => tok
  end.

(** Some field name followed by the equals sign stands somewhere in the
    token. *)
Definition occurs (alts : list str) (tok : str) : Prop :=
  exists pre f post, In f alts /\ tok = pre ++ f ++ "=" ++ post.

(** The key of a token: what stands before its first equals sign. *)
Definition key_of (tok : str) : str :=
  take_while (fun c => negb (Ascii.eqb c "=")) tok.

Definition keys_of (c : ascii) (message : str) : list str :=
  map key_of (split c message).

End Spec.

(** ** The pattern that [filter_datum] compiles, in closed form *)

Module Shape.
Import Re Spec.

(** The pattern of a literal name. *)
Definition lit (f : str) : regex := mkseq (rev (map Chr f)).

Definition dup (c : ascii) : ascii * ascii := (c, c).

Definition canon (fields : list str) (separator : str) : regex :=
  Cat (Grp 1 (mkalt (map lit (alternatives fields))))
      (Cat (Chr "=")
           (Grp 2 (Star (CSet true (map dup separator))))).

(** The replacement function that [filter_datum] passes to [re.sub]. *)
Definition repl (redaction : str) (mo : match_obj) : str :=
  fstr (group (m_caps mo) 1) ++ "=" ++ redaction.

(** [filter_datum] on a pattern of literal names. *)
Definition redact (fields : list str) (separator redaction s : str) : str :=
  sub (canon fields separator) (repl redaction) s.

(** The line that the base formatter renders from [FORMAT]. *)
Definition rendered (r : LogRecord) : str :=
  "[HOLBERTON] " ++ name r ++ " " ++ levelname r ++ " "
  ++ Py.ljust 15 (asctime r) ++ ": " ++ message r.

(** The line that the handler of [get_logger] writes for a message. *)
Definition log_line (now msg : str) : str :=
  redact PII_FIELDS SEPARATOR REDACTION
         (rendered (mkRecord "user_data" "INFO" now msg)).

(** The [column=value] pairs of a row, in the order of the columns. *)
Definition row_pairs (columns row : list str) : list str :=
  map (fun kv => fst kv ++ "=" ++ snd kv) (combine columns row).

(** The lines logged for the rows of a cursor, [n] lines having been
    logged before. *)
Fixpoint logged (w : World) (rows : list (list str)) (n : nat) : list event :=
  match rows with
  | [] => []
  | row :: rest =>
      ELog (log_line (clock w n)
                     (Py.join "; " (row_pairs (description w) row)))
      :: logged w rest (S n)
  end.

(** The connection that [get_db] asks for. *)
Definition connect_event (w : World) : event :=
  EConnect (getenv_default w "PERSONAL_DATA_DB_USERNAME" "root")
           (getenv_default w "PERSONAL_DATA_DB_PASSWORD" "")
           (getenv_default w "PERSONAL_DATA_DB_HOST" "localhost")
           (getenv w "PERSONAL_DATA_DB_NAME").

(** A data source for examples: three columns, no environment variable
    set, a clock that stands still. *)
Definition sample_world (fs : list (option (list str))) : World :=
  mkWorld (fun _ => None) true true
          ["name" : str; "email" : str; "ip" : str] fs
          (fun _ => "2019-11-19 18:37:59,596" : str).

(** Every row has a value for every column. *)
Definition complete_rows (w : World) (rows : list (list str)) : bool :=
  forallb (fun row => (length (description w) <=? length row)%nat) rows.

(** Events that touch neither the connection nor the cursor. *)
Definition is_log (ev : event) : bool :=
  match ev with
  | ELog _ | EHandleError | EExecute _ => true
  | _ => false
  end.

Definition is_connect (ev : event) : bool :=
  match ev with EConnect _ _ _ _ => true | _ => false end.

Definition is_cursor (ev : event) : bool :=
  match ev with ECursor => true | _ => false end.

(** How many connections and cursors a trace acquires. *)
Definition acquisitions (t : list event) : nat * nat :=
  (length (filter is_connect t), length (filter is_cursor t)).

End Shape.

(** * The vocabulary of what a formatter writes *)

Module Writes.
Import Shape.

(** The attributes of a record that the template reads, once the
    formatter has written them. *)
Definition view (o : RecordObj) : LogRecord :=
  mkRecord (obj_name o) (obj_levelname o) (obj_created o) (obj_msg o).

(** The text of the exception that a call leaves on the record. *)
Definition exc_text_after (o : RecordObj) : option str :=
  match obj_exc_info o with
  | Some text => if Obj.truthy (obj_exc_text o) then obj_exc_text o
                 else Some text
  | None => obj_exc_text o
  end.

(** The record as a call of the formatter leaves it: [message] and
    [asctime] are set, and so is the text of the exception when the record
    carries one. *)
Definition written (o : RecordObj) : RecordObj :=
  mkObj (obj_name o) (obj_levelname o) (obj_created o) (obj_msg o)
        (obj_exc_info o) (exc_text_after o) (obj_stack_info o)
        (Some (obj_msg o)) (Some (obj_created o)).

(** The same record with other values in [message] and [asctime]. *)
Definition with_attributes (o : RecordObj) (m t : option str) : RecordObj :=
  mkObj (obj_name o) (obj_levelname o) (obj_created o) (obj_msg o)
        (obj_exc_info o) (obj_exc_text o) (obj_stack_info o) m t.

(** The line of the base formatter: the rendered template, then the text
    of the exception and the stack, each on a line of its own. *)
Definition base_line (o : RecordObj) : str :=
  let s := rendered (view o) in
  let s1 := if Obj.truthy (exc_text_after o)
            then Obj.end_line s ++ fstr (exc_text_after o) else s in
  if Obj.truthy (obj_stack_info o)
  then Obj.end_line s1 ++ fstr (obj_stack_info o) else s1.

(** A record without exception or stack information. *)
Definition bare (o : RecordObj) : bool :=
  match obj_exc_info o with
  | Some _ => false
  | None => negb (Obj.truthy (obj_exc_text o))
            && negb (Obj.truthy (obj_stack_info o))
  end.

End Writes.

(** * The vocabulary of further properties *)

Module More.
Import Spec Shape.

(** Two lists of names with the same members. *)
Definition same_names (fields1 fields2 : list str) : bool :=
  forallb (fun f => existsb (Logging.str_eqb f) fields2) fields1
  && forallb (fun f => existsb (Logging.str_eqb f) fields1) fields2.

(** No name holds a space. *)
Definition spaceless (fields : list str) : bool :=
  forallb (fun f => negb (Py.mem " " f)) fields.

(** What the template puts before the message. *)
Definition header (r : LogRecord) : str :=
  "[HOLBERTON] " ++ name r ++ " " ++ levelname r ++ " "
  ++ Py.ljust 15 (asctime r) ++ ": ".

(** A column of personal data. *)
Definition is_pii (column : str) : bool :=
  existsb (Logging.str_eqb column) PII_FIELDS.

(** A pair as it is meant to be logged. *)
Definition masked_pair (kv : str * str) : str :=
  if is_pii (fst kv) then fst kv ++ "=" ++ REDACTION
  else fst kv ++ "=" ++ snd kv.

(** A pair that the pattern reads as one token of its column: a personal
    value holds no separator, and in any other pair no name of personal
    data followed by the equals sign stands. *)
Definition clean_pair (kv : str * str) : bool :=
  if is_pii (fst kv) then negb (Py.mem ";" (snd kv))
  else match first_occurrence PII_FIELDS (fst kv ++ "=" ++ snd kv) with
       | None => true
       | Some _ => false
       end.

(** Two rows that differ at most in their personal values, which hold no
    separator. *)
Fixpoint same_public (columns row1 row2 : list str) : bool :=
  match columns, row1, row2 with
  | [], _, _ => true
  | k :: ks, v1 :: r1, v2 :: r2 =>
      (if is_pii k
       then negb (Py.mem ";" v1) && negb (Py.mem ";" v2)
       else Logging.str_eqb v1 v2)
      && same_public ks r1 r2
  | _, _, _ => false
  end.

Fixpoint same_public_rows (columns : list str) (rows1 rows2 : list (list str))
  : bool :=
  match rows1, rows2 with
  | [], [] => true
  | r1 :: rest1, r2 :: rest2 =>
      same_public columns r1 r2 && same_public_rows columns rest1 rest2
  | _, _ => false
  end.

(** Rows of clean pairs. *)
Definition clean_rows (columns : list str) (rows : list (list str)) : bool :=
  forallb (fun row => forallb clean_pair (combine columns row)) rows.

(** The same data source with other fetches. *)
Definition with_fetches (w : World) (fs : list (option (list str))) : World :=
  mkWorld (getenv w) (connect_ok w) (execute_ok w) (description w) fs (clock w).

(** The lines meant to be logged for the rows of a cursor. *)
Fixpoint masked_lines (w : World) (rows : list (list str)) (n : nat)
  : list event :=
  match rows with
  | [] => []
  | row :: rest =>
      ELog (header (mkRecord "user_data" "INFO" (clock w n) [])
            ++ Py.join "; " (map masked_pair (combine (description w) row)))
      :: masked_lines w rest (S n)
  end.

(** [get_logger] called when [earlier] handlers are on the logger
    [user_data]: [logging.getLogger] gives the one logger of that name,
    with the handlers that earlier calls added, and [addHandler] appends
    the new stream handler, an object that is in no list yet. *)
Definition get_logger_in (earlier : list RedactingFormatter) : Logger :=
  mkLogger "user_data" (earlier ++ [mkFormatter PII_FIELDS]).

(** The logger that the last of [n] calls returns, [earlier] handlers
    being there before the first. *)
Fixpoint get_logger_calls (n : nat) (earlier : list RedactingFormatter)
  : Logger :=
  match n with
  | O => mkLogger "user_data" earlier
  | S n' => get_logger_calls n' (handlers (get_logger_in earlier))
  end.

(** [main] when [get_logger] has been called [n] times before in the
    process: its own call is one more, on the same logger. *)
Definition main_after (n : nat) (w : World) : M unit :=
  get_db w ;;;
  tell ECursor ;;;
  (if execute_ok w then tell (EExecute "SELECT * FROM users;")
   else raise ExecuteError) ;;;
  let columns := description w in
  let logger := get_logger_calls (S n) [] in
  rows_loop w logger columns (fetches w) 0 ;;;
  tell ECloseCursor ;;;
  tell ECloseDb.

(** The lines logged for the rows of a cursor by [k] handlers. *)
Fixpoint logged_times (k : nat) (w : World) (rows : list (list str)) (n : nat)
  : list event :=
  match rows with
  | [] => []
  | row :: rest =>
      repeat (ELog (log_line (clock w n)
                             (Py.join "; " (row_pairs (description w) row))))
             k
      ++ logged_times k w rest (S n)
  end.

(** The lines written in a trace. *)
Fixpoint lines (t : list event) : list str :=
  match t with
  | [] => []
  | ELog line :: t' => line :: lines t'
  | _ :: t' => lines t'
  end.

End More.

(** * Properties *)

Unset Implicit Arguments.

Import Re Spec Shape Writes More.

(** ** Lists of characters *)

Lemma take_drop_while p s : take_while p s ++ drop_while p s = s.
Proof.
  induction s as [|c s IH]; simpl; [reflexivity|].
  destruct (p c); simpl; [now rewrite IH | reflexivity].
Qed.

Lemma skipn_take_while p s : skipn (length (take_while p s)) s = drop_while p s.
Proof.
  induction s as [|c s IH]; simpl; [reflexivity|].
  destruct (p c); simpl; [exact IH | reflexivity].
Qed.

Lemma drop_while_all p s : forallb p s = true -> drop_while p s = [].
Proof.
  induction s as [|c s IH]; simpl; [reflexivity|].
  destruct (p c); simpl; [exact IH | discriminate].
Qed.

Lemma drop_while_stop p s c t :
  forallb p s = true -> p c = false -> drop_while p (s ++ c :: t) = c :: t.
Proof.
  induction s as [|a s IH]; simpl; intros Hs Hc.
  - now rewrite Hc.
  - apply andb_prop in Hs as [Ha Hs]. rewrite Ha. now apply IH.
Qed.

Lemma startswith_spec p s :
  Py.startswith p s = true <-> exists t, s = p ++ t.
Proof.
  revert s; induction p as [|a p IH]; intros s; simpl.
  - split; [exists s; reflexivity | reflexivity].
  - destruct s as [|b s].
    + split; [discriminate | intros [t Ht]; discriminate].
    + rewrite andb_true_iff, Ascii.eqb_eq, IH. split.
      * intros [-> [t ->]]. now exists t.
      * intros [t Ht]. injection Ht as -> ->. split; [reflexivity | now exists t].
Qed.

Lemma startswith_app p t : Py.startswith p (p ++ t) = true.
Proof. apply startswith_spec. now exists t. Qed.

Lemma startswith_skipn p s :
  Py.startswith p s = true -> s = p ++ skipn (length p) s.
Proof.
  intros H. apply startswith_spec in H as [t ->].
  now rewrite skipn_app, skipn_all, Nat.sub_diag.
Qed.

Lemma mem_false_iff c s : Py.mem c s = false <-> ~ In c s.
Proof.
  unfold Py.mem. split.
  - intros H Hin. assert (existsb (Ascii.eqb c) s = true) as E.
    { apply existsb_exists. exists c. split; [assumption | apply Ascii.eqb_refl]. }
    congruence.
  - intros H. destruct (existsb (Ascii.eqb c) s) eqn:E; [|reflexivity].
    apply existsb_exists in E as [x [Hx E]]. apply Ascii.eqb_eq in E. now subst.
Qed.

(** ** The pattern that [filter_datum] compiles *)

Lemma steps_app st a b :
  steps st (a ++ b) =
  match steps st a with Some st' => steps st' b | None => None end.
Proof.
  revert st; induction a as [|c a IH]; intros st; simpl; [reflexivity|].
  destruct (step st c); [apply IH | reflexivity].
Qed.

Lemma step_ordinary st c :
  p_mode st = Normal -> special c = false ->
  step st c = Some (push_item st (Chr c)).
Proof.
  intros Hm H. unfold step. rewrite Hm.
  unfold special, Py.mem in H. simpl in H.
  repeat (apply orb_false_elim in H; destruct H as [?E H]).
  repeat match goal with
         | E : Ascii.eqb _ _ = false |- _ => rewrite E; clear E
         end.
  reflexivity.
Qed.

Lemma steps_name st f :
  p_mode st = Normal -> plain_name f = true ->
  steps st f =
  Some (PState Normal (p_stack st) (p_alts st)
               (rev (map Chr f) ++ p_seq st) (p_next st)).
Proof.
  revert st; induction f as [|c f IH]; intros st Hm Hf; simpl.
  - destruct st; simpl in *; now subst.
  - simpl in Hf. apply andb_prop in Hf as [Hc Hf].
    apply negb_true_iff in Hc.
    rewrite (step_ordinary st c Hm Hc), IH by (assumption || reflexivity).
    simpl. now rewrite <- app_assoc.
Qed.

Lemma steps_names st n alts0 seq0 stack f fs :
  p_mode st = Normal -> p_seq st = [] ->
  p_stack st = Frame n alts0 seq0 :: stack ->
  forallb plain_name (f :: fs) = true ->
  steps st (Py.join "|" (f :: fs) ++ ")") =
  Some (PState Normal stack alts0
               (Grp n (mkalt (rev (p_alts st) ++ map lit (f :: fs))) :: seq0)
               (p_next st)).
Proof.
  revert st f; induction fs as [|g fs IH]; intros st f Hm Hseq Hst Hp.
  - simpl in Hp. rewrite andb_true_r in Hp.
    simpl Py.join. rewrite steps_app, steps_name by assumption.
    simpl. rewrite Hst, Hseq, app_nil_r. unfold close_alts. simpl.
    reflexivity.
  - change (forallb plain_name (f :: g :: fs))
      with (plain_name f && forallb plain_name (g :: fs)) in Hp.
    apply andb_prop in Hp as [Hf Hp].
    change (Py.join "|" (f :: g :: fs))
      with (f ++ ("|" : str) ++ Py.join "|" (g :: fs)).
    rewrite <- !app_assoc.
    remember (Py.join "|" (g :: fs) ++ (")" : str)) as rest eqn:Hrest.
    rewrite steps_app, steps_name by assumption.
    rewrite Hseq, app_nil_r. simpl. subst rest.
    rewrite IH; simpl; try reflexivity; try assumption.
    rewrite <- app_assoc. reflexivity.
Qed.

Lemma step_set_char st negate items c1 c :
  p_mode st = SetPending negate items c1 -> set_special c = false ->
  step st c = Some (set_mode st (SetPending negate ((c1, c1) :: items) c)).
Proof.
  intros Hm H. unfold step. rewrite Hm.
  unfold set_special, Py.mem in H. simpl in H.
  repeat (apply orb_false_elim in H; destruct H as [?E H]).
  repeat match goal with
         | E : Ascii.eqb _ _ = false |- _ => rewrite E; clear E
         end.
  reflexivity.
Qed.

Lemma steps_set st negate items c1 sep :
  p_mode st = SetPending negate items c1 ->
  forallb (fun c => negb (set_special c)) sep = true ->
  steps st (sep ++ "]") =
  Some (push_item st (CSet negate (rev items ++ map dup (c1 :: sep)))).
Proof.
  revert st items c1; induction sep as [|c sep IH]; intros st items c1 Hm Hp.
  - simpl. unfold step. rewrite Hm. simpl. unfold close_set. simpl.
    reflexivity.
  - simpl in Hp. apply andb_prop in Hp as [Hc Hp].
    apply negb_true_iff in Hc.
    change ((c :: sep) ++ ("]" : str)) with (c :: (sep ++ ("]" : str))).
    cbn [steps]. rewrite (step_set_char st negate items c1 c Hm Hc).
    rewrite (IH _ ((c1, c1) :: items) c) by (reflexivity || assumption).
    unfold push_item, set_mode. simpl. rewrite <- app_assoc. reflexivity.
Qed.

(** The pattern text of literal names and a literal separator compiles
    to [canon]. *)
Lemma compile_pattern fields separator :
  forallb plain_name fields = true ->
  plain_separator separator = true ->
  compile (pattern fields separator) = Some (canon fields separator).
Proof.
  intros Hf Hs. unfold compile, pattern.
  destruct separator as [|c1 sep]; [discriminate|].
  simpl in Hs. apply andb_prop in Hs as [Hc1 Hs].
  apply negb_true_iff in Hc1.
  assert (Hb : Ascii.eqb c1 "\" = false).
  { unfold set_special, Py.mem in Hc1. simpl in Hc1.
    apply orb_false_elim in Hc1. tauto. }
  change (("(" : str) ++ ?x) with ("("%char :: x).
  cbn [steps]. cbn [step init p_mode Ascii.eqb Bool.eqb p_next p_alts p_seq p_stack].
  assert (Hgrp :
    steps (PState Normal [Frame 1 [] []] [] [] 2)
          (Py.join "|" fields ++ (")" : str)) =
    Some (PState Normal [] []
                 [Grp 1 (mkalt (map lit (alternatives fields)))] 2)).
  { destruct fields as [|f fs].
    - reflexivity.
    - erewrite steps_names; try reflexivity; assumption. }
  change ((")=([^" : str) ++ ?x)
    with ((")" : str) ++ ("=([^" : str) ++ x).
  rewrite app_assoc, steps_app, Hgrp.
  change (("=([^" : str) ++ ?x) with ("="%char :: "("%char :: "["%char :: "^"%char :: x).
  cbn [steps]. cbv beta iota delta [step p_mode].
  cbn [Ascii.eqb Bool.eqb orb andb p_next p_alts p_seq p_stack push_item set_mode p_mode].
  change ((c1 :: sep) ++ ?x) with (c1 :: (sep ++ x)).
  cbn [steps]. cbv beta iota delta [step p_mode].
  rewrite Hb. cbn [set_mode p_next p_alts p_seq p_stack p_mode].
  change (("]*)" : str)) with (("]" : str) ++ ("*)" : str)).
  rewrite app_assoc, steps_app.
  erewrite steps_set; [|reflexivity|assumption].
  simpl. reflexivity.
Qed.

(** *** What the compiled pattern matches *)

Lemma mkseq_snoc l r :
  mkseq (l ++ [r]) = match mkseq l with Eps => r | acc => Cat r acc end.
Proof.
  unfold mkseq. rewrite fold_left_app. simpl.
  now destruct (fold_left _ l Eps).
Qed.

Lemma m_lit A f : forall s cs (k : str -> caps -> option A),
  m (lit f) s cs k =
  if Py.startswith f s then k (skipn (length f) s) cs else None.
Proof.
  unfold lit. induction f as [|a f IH]; intros s cs k.
  - reflexivity.
  - simpl rev. rewrite mkseq_snoc.
    assert (E : m (match mkseq (rev (map Chr f)) with
                   | Eps => Chr a
                   | acc => Cat (Chr a) acc
                   end) s cs k =
                m (Chr a) s cs (fun s' cs' => m (mkseq (rev (map Chr f))) s' cs' k)).
    { destruct (mkseq (rev (map Chr f))); reflexivity. }
    rewrite E. simpl. destruct s as [|b s]; [reflexivity|].
    simpl. destruct (Ascii.eqb a b); [apply IH | reflexivity].
Qed.

Lemma startswith_app_l p q s :
  Py.startswith (p ++ q) s =
  Py.startswith p s && Py.startswith q (skipn (length p) s).
Proof.
  revert s; induction p as [|a p IH]; intros s; simpl; [reflexivity|].
  destruct s as [|b s]; [reflexivity|].
  rewrite IH. now rewrite andb_assoc.
Qed.

Lemma m_alts A alts : forall s cs (k : str -> caps -> option A),
  alts <> [] ->
  m (mkalt (map lit alts)) s cs k =
  fold_right
    (fun f rest =>
       match (if Py.startswith f s then k (skipn (length f) s) cs else None)
       with
       | Some x => Some x
       | None => rest
       end) None alts.
Proof.
  induction alts as [|f alts IH]; intros s cs k Hne; [congruence|].
  destruct alts as [|g alts].
  - simpl. rewrite m_lit. now destruct (if Py.startswith f s then _ else _).
  - change (mkalt (map lit (f :: g :: alts)))
      with (Alt (lit f) (mkalt (map lit (g :: alts)))).
    cbn [m fold_right]. rewrite m_lit, IH by congruence. reflexivity.
Qed.

Lemma in_range_dup c x : in_range c (dup x) = Ascii.eqb c x.
Proof.
  unfold in_range, dup. simpl.
  destruct (Ascii.eqb_spec c x) as [->|Hne].
  - now rewrite Nat.leb_refl.
  - apply andb_false_iff.
    destruct (Nat.leb_spec (nat_of_ascii x) (nat_of_ascii c));
      [right | now left].
    apply Nat.leb_gt.
    assert (nat_of_ascii c <> nat_of_ascii x).
    { intros E. apply Hne.
      rewrite <- (ascii_nat_embedding c), <- (ascii_nat_embedding x).
      now rewrite E. }
    lia.
Qed.

Lemma accepts_value separator c :
  accepts (CSet true (map dup separator)) c = value_char separator c.
Proof.
  assert (E : existsb (in_range c) (map dup separator)
              = existsb (Ascii.eqb c) separator).
  { induction separator as [|x sep IH]; simpl; [reflexivity|].
    now rewrite in_range_dup, IH. }
  unfold value_char, Py.mem. cbn [accepts]. rewrite E.
  now destruct (existsb _ separator).
Qed.

Lemma star_m_value A p s (k : str -> option A) (g : str -> A) :
  (forall s', length s' <= length s -> k s' = Some (g s')) ->
  star_m p s k = Some (g (drop_while p s)).
Proof.
  induction s as [|c s IH]; simpl; intros H.
  - now apply H.
  - destruct (p c).
    + rewrite IH; [reflexivity|]. intros s' Hs'. apply H. simpl. lia.
    + now apply H.
Qed.

Lemma length_take_drop p (s : str) :
  length s = length (take_while p s) + length (drop_while p s).
Proof. now rewrite <- length_app, take_drop_while. Qed.

Lemma firstn_take_while p (s : str) :
  firstn (length s - length (drop_while p s)) s = take_while p s.
Proof.
  rewrite (length_take_drop p s) at 1.
  rewrite Nat.add_sub.
  rewrite <- (take_drop_while p s) at 2.
  now rewrite firstn_app, Nat.sub_diag, firstn_all, app_nil_r.
Qed.

Lemma star_m_pred A p q s (k : str -> option A) :
  (forall c, p c = q c) -> star_m p s k = star_m q s k.
Proof.
  intros H. induction s as [|c s IH]; simpl; [reflexivity|].
  now rewrite H, IH.
Qed.

Lemma match_at_canon fields separator s b :
  match_at (canon fields separator) s b =
  match find_field (alternatives fields) s with
  | Some f =>
      let v := take_while (value_char separator) (skipn (S (length f)) s) in
      Some (Match (S (length f + length v)) [(2, v); (1, f)])
  | None => None
  end.
Proof.
  unfold match_at, canon, find_field.
  assert (Hne : alternatives fields <> []) by (destruct fields; discriminate).
  cbn [m]. rewrite m_alts by assumption. clear Hne.
  induction (alternatives fields) as [|f alts IH]; [reflexivity|].
  cbn [fold_right find]. rewrite startswith_app_l.
  destruct (Py.startswith f s) eqn:Ef; cbn [andb]; [|apply IH].
  pose proof (startswith_skipn _ _ Ef) as Hs.
  remember (skipn (length f) s) as s1 eqn:Hs1.
  destruct s1 as [|e s2]; [apply IH|].
  cbn [Py.startswith list_ascii_of_string accepts]. rewrite andb_true_r.
  destruct (Ascii.eqb_spec "=" e) as [<-|Hne]; [|apply IH].
  cbn [single_char].
  rewrite (star_m_pred _ _ _ _ _ (accepts_value separator)).
  assert (Hlen : length s = length f + S (length s2)).
  { rewrite Hs at 1. now rewrite length_app. }
  rewrite (star_m_value _ _ _ _
             (fun s' => Match (length s - length s')
                          [(2, firstn (length s2 - length s') s2);
                           (1, firstn (length s - length ("="%char :: s2)) s)])).
  - cbv zeta. f_equal.
    assert (E2 : skipn (S (length f)) s = s2).
    { rewrite Hs at 1. rewrite skipn_app, skipn_all2 by lia.
      replace (S (length f) - length f) with 1 by lia. reflexivity. }
    rewrite E2, firstn_take_while. f_equal.
    + pose proof (length_take_drop (value_char separator) s2). lia.
    + do 2 f_equal. rewrite Hlen. simpl length.
      replace (length f + S (length s2) - S (length s2)) with (length f) by lia.
      rewrite Hs at 1. now rewrite firstn_app, Nat.sub_diag, firstn_all, app_nil_r.
  - intros s' Hs'.
    replace (length s - length s' =? 0)%nat with false
      by (symmetry; apply Nat.eqb_neq; lia).
    now rewrite andb_false_r.
Qed.

(** *** The scan of [re.sub] with the compiled pattern *)

Lemma find_field_startswith alts f s :
  find_field alts s = Some f -> exists t, s = f ++ "="%char :: t.
Proof.
  unfold find_field. intros H. apply find_some in H as [_ H].
  apply startswith_spec in H as [t ->]. exists t.
  now rewrite <- app_assoc.
Qed.

Lemma find_field_nil alts : find_field alts [] = None.
Proof.
  destruct (find_field alts []) as [f|] eqn:E; [|reflexivity].
  apply find_field_startswith in E as [t E]. now destruct f.
Qed.

Section Scan.
Variables (fields : list str) (separator redaction : str).

Local Abbreviation alts := (alternatives fields).
Local Abbreviation value := (value_char separator).
Local Abbreviation repl := (Shape.repl redaction).
Local Abbreviation redact := (Shape.redact fields separator redaction).

Lemma sub_loop_skip n : forall s,
  sub_loop (canon fields separator) repl s n =
  sub_loop (canon fields separator) repl (skipn n s) 0.
Proof.
  induction n as [|n IH]; intros s; [reflexivity|].
  destruct s as [|c s].
  - cbn [sub_loop skipn]. rewrite match_at_canon.
    now rewrite find_field_nil.
  - cbn [sub_loop skipn]. apply IH.
Qed.

Lemma redact_nil : redact [] = [].
Proof.
  unfold Shape.redact, sub. cbn [sub_loop]. rewrite match_at_canon.
  now rewrite find_field_nil.
Qed.

Lemma redact_miss c s :
  find_field alts (c :: s) = None -> redact (c :: s) = c :: redact s.
Proof.
  intros H. unfold Shape.redact, sub. cbn [sub_loop]. rewrite match_at_canon.
  now rewrite H.
Qed.

Lemma redact_hit f s :
  find_field alts s = Some f ->
  redact s =
  f ++ "=" ++ redaction ++ redact (drop_while value (skipn (S (length f)) s)).
Proof.
  intros H. destruct (find_field_startswith _ _ _ H) as [t Hs].
  unfold Shape.redact, sub.
  destruct s as [|c s]; [now rewrite find_field_nil in H|].
  cbn [sub_loop]. rewrite match_at_canon. rewrite H.
  cbv zeta. cbn [m_len]. unfold Shape.repl at 1. cbn [m_caps group Nat.eqb fstr].
  rewrite <- !app_assoc. do 3 f_equal.
  rewrite sub_loop_skip. f_equal.
  rewrite <- skipn_take_while.
  change (skipn (length f + length (take_while value (skipn (S (length f)) (c :: s)))) s)
    with (skipn (S (length f + length (take_while value (skipn (S (length f)) (c :: s)))))
                (c :: s)).
  rewrite skipn_skipn. f_equal. lia.
Qed.

End Scan.

Lemma filter_datum_redact fields redaction message separator :
  forallb plain_name fields = true ->
  plain_separator separator = true ->
  filter_datum fields redaction message separator =
  Some (redact fields separator redaction message).
Proof.
  intros Hf Hs. unfold filter_datum.
  now rewrite compile_pattern.
Qed.

(** ** Redaction token by token *)

Lemma find_pointwise {A} (f g : A -> bool) l :
  (forall x, In x l -> f x = g x) -> find f l = find g l.
Proof.
  induction l as [|x l IH]; intros H; simpl; [reflexivity|].
  rewrite (H x) by now left. destruct (g x); [reflexivity|].
  apply IH. intros y Hy. apply H. now right.
Qed.

Lemma startswith_cut (value : ascii -> bool) p c : forall s1 s2,
  forallb value p = true -> value c = false ->
  Py.startswith p (s1 ++ c :: s2) = Py.startswith p s1.
Proof.
  induction p as [|a p IH]; intros s1 s2 Hp Hc; [reflexivity|].
  simpl in Hp. apply andb_prop in Hp as [Ha Hp].
  destruct s1 as [|b s1]; simpl.
  - destruct (Ascii.eqb_spec a c) as [->|_]; [congruence | reflexivity].
  - now rewrite IH.
Qed.

Section Tokens.
Variables (fields : list str) (separator redaction : str).

Local Abbreviation alts := (alternatives fields).
Local Abbreviation value := (value_char separator).
Local Abbreviation redact := (Shape.redact fields separator redaction).

(** No name holds a separator character, and the equals sign is none. *)
Hypothesis names_value : forall f, In f alts -> forallb value f = true.
Hypothesis equals_value : value "=" = true.

Lemma find_field_cut s1 c s2 :
  value c = false -> find_field alts (s1 ++ c :: s2) = find_field alts s1.
Proof.
  intros Hc. unfold find_field. apply find_pointwise. intros f Hf.
  apply startswith_cut with (value := value); [|assumption].
  rewrite forallb_app, names_value by assumption. simpl.
  now rewrite equals_value.
Qed.

Lemma find_field_sep c s : value c = false -> find_field alts (c :: s) = None.
Proof.
  intros Hc. pose proof (find_field_cut [] c s Hc) as H.
  simpl app in H. rewrite H. apply find_field_nil.
Qed.

Lemma redact_token_eq tok :
  forallb value tok = true ->
  redact tok = redact_token alts redaction tok.
Proof.
  induction tok as [|c t IH]; intros Hv.
  - rewrite redact_nil. unfold redact_token. simpl.
    now rewrite find_field_nil.
  - unfold redact_token. cbn [first_occurrence].
    destruct (find_field alts (c :: t)) as [f|] eqn:E.
    + rewrite (redact_hit _ _ _ _ _ E).
      destruct (find_field_startswith _ _ _ E) as [u Hu].
      rewrite drop_while_all.
      * rewrite redact_nil, app_nil_r. reflexivity.
      * rewrite Hu in Hv. rewrite Hu.
        rewrite skipn_app, skipn_all2 by lia.
        replace (S (length f) - length f) with 1 by lia. simpl.
        rewrite forallb_app in Hv. apply andb_prop in Hv as [_ Hv].
        simpl in Hv. now apply andb_prop in Hv as [_ Hv].
    + rewrite (redact_miss _ _ _ _ _ E).
      simpl in Hv. apply andb_prop in Hv as [_ Hv].
      rewrite (IH Hv). unfold redact_token.
      now destruct (first_occurrence alts t) as [[i f]|].
Qed.

Lemma redact_cut s1 c s2 :
  forallb value s1 = true -> value c = false ->
  redact (s1 ++ c :: s2) = redact s1 ++ c :: redact s2.
Proof.
  intros Hv Hc. induction s1 as [|a s1 IH].
  - rewrite redact_nil. simpl.
    apply redact_miss. now apply find_field_sep.
  - pose proof (find_field_cut (a :: s1) c s2 Hc) as Hcut.
    destruct (find_field alts (a :: s1)) as [f|] eqn:E.
    + change ((a :: s1) ++ c :: s2) with (a :: s1 ++ c :: s2) in *.
      rewrite (redact_hit _ _ _ _ _ Hcut), (redact_hit _ _ _ _ _ E).
      destruct (find_field_startswith _ _ _ E) as [u Hu].
      assert (Hu' : forallb value u = true).
      { rewrite Hu in Hv. rewrite forallb_app in Hv.
        apply andb_prop in Hv as [_ Hv]. simpl in Hv.
        now apply andb_prop in Hv as [_ Hv]. }
      assert (Hk : forall t, skipn (S (length f)) (a :: s1 ++ t) = u ++ t).
      { intros t. change (a :: s1 ++ t) with ((a :: s1) ++ t).
        rewrite Hu, <- app_assoc. simpl app.
        rewrite skipn_app, skipn_all2 by lia.
        replace (S (length f) - length f) with 1 by lia. reflexivity. }
      rewrite (Hk (c :: s2)).
      pose proof (Hk []) as Hk0. rewrite !app_nil_r in Hk0. rewrite Hk0.
      rewrite drop_while_stop, drop_while_all by assumption.
      rewrite redact_nil, app_nil_r, <- !app_assoc.
      do 3 f_equal. apply redact_miss. now apply find_field_sep.
    + change ((a :: s1) ++ c :: s2) with (a :: s1 ++ c :: s2) in *.
      rewrite (redact_miss _ _ _ _ _ Hcut), (redact_miss _ _ _ _ _ E).
      simpl in Hv. apply andb_prop in Hv as [_ Hv].
      now rewrite (IH Hv).
Qed.

Lemma redact_join c toks :
  value c = false ->
  Forall (fun tok => forallb value tok = true) toks ->
  redact (Py.join [c] toks) =
  Py.join [c] (map (redact_token alts redaction) toks).
Proof.
  intros Hc Ht. induction Ht as [|t toks Hv Ht IH].
  - apply redact_nil.
  - destruct toks as [|t2 toks].
    + simpl. now apply redact_token_eq.
    + change (Py.join [c] (t :: t2 :: toks))
        with (t ++ c :: Py.join [c] (t2 :: toks)).
      rewrite redact_cut, IH, redact_token_eq by assumption.
      reflexivity.
Qed.

End Tokens.

(** ** Messages as tokens *)

Lemma split_nonempty c s : split c s <> [].
Proof.
  destruct s as [|a s]; simpl; [discriminate|].
  destruct (Ascii.eqb a c); [discriminate|].
  destruct (split c s); discriminate.
Qed.

Lemma join_split c s : Py.join [c] (split c s) = s.
Proof.
  induction s as [|a s IH]; [reflexivity|].
  pose proof (split_nonempty c s) as Hn.
  simpl. destruct (Ascii.eqb_spec a c) as [->|Hne];
    destruct (split c s) as [|t ts]; try congruence.
  - change (Py.join [c] ([] :: t :: ts)) with (c :: Py.join [c] (t :: ts)).
    now rewrite IH.
  - destruct ts as [|t2 ts]; simpl in *; now rewrite IH.
Qed.

Lemma value_char_single c x : value_char [c] x = negb (Ascii.eqb x c).
Proof. unfold value_char, Py.mem. simpl. now rewrite orb_false_r. Qed.

Lemma split_value c s :
  Forall (fun tok => forallb (value_char [c]) tok = true) (split c s).
Proof.
  induction s as [|a s IH]; simpl.
  - constructor; [reflexivity | constructor].
  - destruct (Ascii.eqb a c) eqn:E.
    + constructor; [reflexivity | assumption].
    + destruct (split c s) as [|t ts]; [constructor; [|constructor]|].
      * simpl. now rewrite value_char_single, E.
      * inversion IH as [|? ? Ht Hts]; subst.
        constructor; [|assumption].
        simpl. now rewrite value_char_single, E, Ht.
Qed.

Lemma split_token c t :
  forallb (value_char [c]) t = true -> split c t = [t].
Proof.
  induction t as [|a t IH]; intros Hv; [reflexivity|].
  simpl in Hv. apply andb_prop in Hv as [Ha Hv].
  rewrite value_char_single in Ha. apply negb_true_iff in Ha.
  simpl. now rewrite Ha, (IH Hv).
Qed.

Lemma split_cut c t rest :
  forallb (value_char [c]) t = true ->
  split c (t ++ c :: rest) = t :: split c rest.
Proof.
  induction t as [|a t IH]; intros Hv.
  - cbn [app split]. now rewrite Ascii.eqb_refl.
  - simpl in Hv. apply andb_prop in Hv as [Ha Hv].
    rewrite value_char_single in Ha. apply negb_true_iff in Ha.
    cbn [app split]. now rewrite Ha, (IH Hv).
Qed.

Lemma split_join c toks :
  toks <> [] ->
  Forall (fun tok => forallb (value_char [c]) tok = true) toks ->
  split c (Py.join [c] toks) = toks.
Proof.
  intros Hne Ht. induction Ht as [|t toks Hv Ht IH]; [congruence|].
  clear Hne. destruct toks as [|t2 toks].
  - now apply split_token.
  - change (Py.join [c] (t :: t2 :: toks))
      with (t ++ c :: Py.join [c] (t2 :: toks)).
    rewrite split_cut by assumption. f_equal. apply IH. discriminate.
Qed.

(** *** What a well-formed configuration gives *)

Lemma well_formed_plain fields c :
  well_formed fields c = true -> forallb plain_name fields = true.
Proof.
  unfold well_formed. intros H.
  apply andb_prop in H as [H _]. apply andb_prop in H as [H _].
  rewrite forallb_forall in *. intros f Hf.
  specialize (H f Hf). now apply andb_prop in H as [H _].
Qed.

Lemma well_formed_separator fields c :
  well_formed fields c = true -> plain_separator [c] = true.
Proof.
  unfold well_formed. intros H.
  apply andb_prop in H as [H _]. apply andb_prop in H as [_ H].
  simpl. now rewrite H.
Qed.

Lemma well_formed_equals fields c :
  well_formed fields c = true -> value_char [c] "=" = true.
Proof.
  unfold well_formed. intros H. apply andb_prop in H as [_ H].
  rewrite value_char_single. rewrite negb_true_iff in *.
  destruct (Ascii.eqb_spec "="%char c) as [<-|Hn]; [discriminate|reflexivity].
Qed.

Lemma well_formed_sep fields c :
  well_formed fields c = true -> value_char [c] c = false.
Proof. intros _. now rewrite value_char_single, Ascii.eqb_refl. Qed.

Lemma well_formed_names fields c :
  well_formed fields c = true ->
  forall f, In f (alternatives fields) -> forallb (value_char [c]) f = true.
Proof.
  unfold well_formed. intros H f Hf.
  apply andb_prop in H as [H _]. apply andb_prop in H as [H _].
  destruct fields as [|g fs].
  - simpl in Hf. destruct Hf as [<-|[]]. reflexivity.
  - cbn [alternatives] in Hf. rewrite forallb_forall in H.
    specialize (H f Hf). apply andb_prop in H as [_ H].
    apply negb_true_iff in H. unfold value_char.
    apply forallb_forall. intros x Hx.
    unfold Py.mem. simpl. rewrite orb_false_r.
    destruct (Ascii.eqb_spec x c) as [->|_]; [|reflexivity].
    apply mem_false_iff in H. contradiction.
Qed.

(** [filter_datum] redacts a message token by token. *)
Lemma filter_datum_tokens fields redaction c message :
  well_formed fields c = true ->
  filter_datum fields redaction message [c] =
  Some (Py.join [c]
          (map (redact_token (alternatives fields) redaction)
               (split c message))).
Proof.
  intros Hwf.
  rewrite filter_datum_redact
    by eauto using well_formed_plain, well_formed_separator.
  f_equal. rewrite <- (join_split c message) at 1.
  apply redact_join;
    eauto using well_formed_names, well_formed_equals, well_formed_sep,
                split_value.
Qed.

(** *** Places where a field name stands *)

Lemma find_field_in alts s f : find_field alts s = Some f -> In f alts.
Proof. unfold find_field. intros H. now apply find_some in H. Qed.

Lemma find_field_found alts f s post :
  In f alts -> s = f ++ "=" ++ post -> exists g, find_field alts s = Some g.
Proof.
  intros Hin ->. unfold find_field.
  destruct (find _ alts) as [g|] eqn:E; [now exists g|].
  pose proof (find_none _ _ E f Hin) as H. cbv beta in H.
  rewrite app_assoc, startswith_app in H. discriminate.
Qed.

Lemma first_occurrence_spec alts : forall tok i f,
  first_occurrence alts tok = Some (i, f) ->
  In f alts /\ exists post, tok = firstn i tok ++ f ++ "=" ++ post.
Proof.
  induction tok as [|c t IH]; intros i f H; cbn [first_occurrence] in H.
  - destruct (find_field alts []) as [g|] eqn:E; [|discriminate].
    injection H as <- <-. split; [eapply find_field_in; eassumption|].
    apply find_field_startswith in E as [u Hu]. discriminate (f_equal (@length _) Hu) || (destruct g; discriminate).
  - destruct (find_field alts (c :: t)) as [g|] eqn:E.
    + injection H as <- <-. split; [eapply find_field_in; eassumption|].
      unfold find_field in E. apply find_some in E as [_ E].
      apply startswith_spec in E as [u Hu]. exists u.
      now rewrite Hu, <- app_assoc.
    + destruct (first_occurrence alts t) as [[j g]|] eqn:E'; [|discriminate].
      injection H as <- <-. destruct (IH _ _ eq_refl) as [Hin [post Hp]].
      split; [assumption|]. exists post.
      cbn [firstn]. rewrite <- app_comm_cons. f_equal. exact Hp.
Qed.

Lemma first_occurrence_hit alts tok g :
  find_field alts tok = Some g -> first_occurrence alts tok = Some (0, g).
Proof. intros H. destruct tok; cbn [first_occurrence]; now rewrite H. Qed.

Lemma first_occurrence_found alts f : forall pre post,
  In f alts ->
  exists i g, first_occurrence alts (pre ++ f ++ "=" ++ post) = Some (i, g)
              /\ i <= length pre.
Proof.
  induction pre as [|c pre IH]; intros post Hin.
  - destruct (find_field_found alts f _ post Hin eq_refl) as [g Hg].
    exists 0, g. split; [now apply first_occurrence_hit | auto].
  - cbn [app first_occurrence].
    destruct (find_field alts _) as [g|]; [exists 0, g; split; [auto | lia]|].
    destruct (IH post Hin) as [i [g [E Hi]]]. rewrite E.
    exists (S i), g. split; [reflexivity | simpl; lia].
Qed.

Lemma first_occurrence_none alts tok :
  first_occurrence alts tok = None <-> ~ occurs alts tok.
Proof.
  split.
  - intros H [pre [f [post [Hin ->]]]].
    destruct (first_occurrence_found alts f pre post Hin) as [i [g [E _]]].
    congruence.
  - intros H. destruct (first_occurrence alts tok) as [[i f]|] eqn:E;
      [|reflexivity].
    apply first_occurrence_spec in E as [Hin [post Hp]].
    exfalso. apply H. now exists (firstn i tok), f, post.
Qed.

Lemma redact_token_untouched alts mask tok :
  ~ occurs alts tok -> redact_token alts mask tok = tok.
Proof.
  intros H. apply first_occurrence_none in H.
  unfold redact_token. now rewrite H.
Qed.

(** ** The formatter *)

Lemma Formatter_format_rendered record :
  Logging.Formatter_format FORMAT record = Some (rendered record).
Proof.
  destruct record as [n l a m].
  transitivity
    (Some (("[HOLBERTON] " : str) ++ n ++ (" " : str) ++ l ++ (" " : str)
           ++ Py.ljust 15 a ++ (": " : str) ++ m ++ [])).
  - vm_compute. reflexivity.
  - unfold rendered. cbn [name levelname asctime message].
    now rewrite app_nil_r.
Qed.

Lemma format_filter_datum self record :
  format self record =
  filter_datum (fields self) REDACTION (rendered record) SEPARATOR.
Proof. unfold format. now rewrite Formatter_format_rendered. Qed.

(** ** Tokens whose key is a field name *)

Local Arguments Ascii.eqb : simpl never.

Lemma same_key g : forall f v,
  Py.mem "=" g = false -> Py.mem "=" f = false ->
  Py.startswith (g ++ "=") (f ++ "=" ++ v) = true -> g = f.
Proof.
  unfold Py.mem.
  induction g as [|a g IH]; intros f v Hg Hf H.
  - destruct f as [|b f]; [reflexivity|].
    simpl in H, Hf. rewrite andb_true_r in H.
    apply orb_false_elim in Hf as [Hb _]. congruence.
  - destruct f as [|b f].
    + simpl in H, Hg. apply andb_prop in H as [H _].
      apply orb_false_elim in Hg as [Ha _].
      rewrite Ascii.eqb_sym in H. congruence.
    + simpl in H, Hg, Hf. apply andb_prop in H as [Hab H].
      apply Ascii.eqb_eq in Hab. subst b.
      apply orb_false_elim in Hg as [_ Hg].
      apply orb_false_elim in Hf as [_ Hf].
      f_equal. now apply (IH f v).
Qed.

Lemma key_names_alternatives fields :
  key_names fields = true -> key_names (alternatives fields) = true.
Proof. now destruct fields. Qed.

Lemma in_alternatives f fields : In f fields -> In f (alternatives fields).
Proof. now destruct fields. Qed.

Lemma find_field_key alts f v :
  key_names alts = true -> In f alts ->
  find_field alts (f ++ "=" ++ v) = Some f.
Proof.
  intros Hk Hin.
  destruct (find_field_found alts f _ v Hin eq_refl) as [g Hg].
  rewrite Hg. f_equal.
  unfold find_field in Hg. apply find_some in Hg as [Hing Hg].
  unfold key_names in Hk. rewrite forallb_forall in Hk.
  apply (same_key g f v); try assumption.
  - now apply negb_true_iff, Hk.
  - now apply negb_true_iff, Hk.
Qed.

(** A token whose key is a field name: its whole value is masked. *)
Lemma redact_token_key alts mask f v :
  key_names alts = true -> In f alts ->
  redact_token alts mask (f ++ "=" ++ v) = f ++ "=" ++ mask.
Proof.
  intros Hk Hin. unfold redact_token.
  now rewrite (first_occurrence_hit _ _ f (find_field_key alts f v Hk Hin)).
Qed.

Lemma forallb_value_tokens c toks :
  forallb (forallb (value_char [c])) toks = true ->
  Forall (fun tok => forallb (value_char [c]) tok = true) toks.
Proof. intros H. apply Forall_forall. now apply forallb_forall. Qed.

Lemma filter_datum_key_token fields redaction c before after f v :
  well_formed fields c = true -> key_names fields = true -> In f fields ->
  forallb (value_char [c]) v = true ->
  forallb (forallb (value_char [c])) before = true ->
  forallb (forallb (value_char [c])) after = true ->
  filter_datum fields redaction
               (Py.join [c] (before ++ (f ++ "=" ++ v) :: after)) [c]
  = Some (Py.join [c]
            (map (redact_token (alternatives fields) redaction) before
             ++ (f ++ "=" ++ redaction)
             :: map (redact_token (alternatives fields) redaction) after)).
Proof.
  intros Hwf Hk Hin Hv Hb Ha.
  rewrite filter_datum_tokens by assumption.
  rewrite split_join.
  - rewrite map_app. cbn [map].
    now rewrite redact_token_key
      by auto using key_names_alternatives, in_alternatives.
  - now destruct before.
  - apply Forall_app. split; [now apply forallb_value_tokens|].
    constructor; [|now apply forallb_value_tokens].
    rewrite !forallb_app, Hv.
    rewrite (well_formed_names fields c Hwf f (in_alternatives _ _ Hin)).
    simpl. now rewrite (well_formed_equals fields c Hwf).
Qed.

(** ** Keys *)

Lemma take_while_cut p x e y y' :
  p e = false -> take_while p (x ++ e :: y) = take_while p (x ++ e :: y').
Proof.
  intros He. induction x as [|a x IH]; simpl.
  - now rewrite He.
  - now rewrite IH.
Qed.

Lemma key_of_redact_token alts mask tok :
  key_of (redact_token alts mask tok) = key_of tok.
Proof.
  unfold redact_token.
  destruct (first_occurrence alts tok) as [[i f]|] eqn:E; [|reflexivity].
  apply first_occurrence_spec in E as [_ [post Hp]].
  rewrite Hp at 2. unfold key_of.
  replace (firstn i tok ++ f ++ "=" ++ mask)
    with ((firstn i tok ++ f) ++ "="%char :: mask)
    by now rewrite <- app_assoc.
  replace (firstn i tok ++ f ++ "=" ++ post)
    with ((firstn i tok ++ f) ++ "="%char :: post)
    by now rewrite <- app_assoc.
  apply take_while_cut. now rewrite Ascii.eqb_refl.
Qed.

Lemma forallb_firstn {A} (p : A -> bool) n l :
  forallb p l = true -> forallb p (firstn n l) = true.
Proof.
  revert l; induction n as [|n IH]; intros [|a l] H; simpl; try reflexivity.
  simpl in H. apply andb_prop in H as [Ha H]. now rewrite Ha, IH.
Qed.

Lemma redact_token_value fields c mask tok :
  well_formed fields c = true ->
  forallb (value_char [c]) mask = true ->
  forallb (value_char [c]) tok = true ->
  forallb (value_char [c]) (redact_token (alternatives fields) mask tok) = true.
Proof.
  intros Hwf Hm Ht. unfold redact_token.
  destruct (first_occurrence _ tok) as [[i f]|] eqn:E; [|assumption].
  apply first_occurrence_spec in E as [Hin _].
  rewrite !forallb_app, forallb_firstn, Hm by assumption.
  rewrite (well_formed_names fields c Hwf f Hin). simpl.
  now rewrite (well_formed_equals fields c Hwf).
Qed.

(** ** Redacting twice *)

Lemma startswith_upto_equals f :
  Py.mem "=" f = false ->
  forall a x y,
    Py.startswith (f ++ "=") (a ++ "="%char :: x)
    = Py.startswith (f ++ "=") (a ++ "="%char :: y).
Proof.
  unfold Py.mem.
  induction f as [|g f IH]; intros Hf a x y; destruct a as [|b a]; simpl;
    try reflexivity.
  - simpl in Hf. apply orb_false_elim in Hf as [Hg _].
    rewrite Ascii.eqb_sym in Hg. now rewrite Hg.
  - simpl in Hf. apply orb_false_elim in Hf as [_ Hf].
    f_equal. now apply IH.
Qed.

Lemma drop_while_app_all p a b :
  forallb p a = true -> drop_while p (a ++ b) = drop_while p b.
Proof.
  induction a as [|c a IH]; simpl; intros H; [reflexivity|].
  apply andb_prop in H as [Hc H]. rewrite Hc. now apply IH.
Qed.

Lemma drop_while_head p s :
  drop_while p s = [] \/ exists c r, drop_while p s = c :: r /\ p c = false.
Proof.
  induction s as [|a s IH]; simpl; [now left|].
  destruct (p a) eqn:E; [assumption|]. right. now exists a, s.
Qed.

Lemma length_drop_while p (s : str) : length (drop_while p s) <= length s.
Proof.
  induction s as [|a s IH]; simpl; [lia|].
  destruct (p a); simpl; lia.
Qed.

Section Twice.
Variables (fields : list str) (separator redaction : str).

Local Abbreviation alts := (alternatives fields).
Local Abbreviation value := (value_char separator).
Local Abbreviation redact := (Shape.redact fields separator redaction).

(** No name holds the equals sign, and the mask no separator character. *)
Hypothesis names_keys : key_names fields = true.
Hypothesis mask_value : forallb value redaction = true.

Lemma find_field_upto_equals a x y :
  find_field alts (a ++ "="%char :: x) = find_field alts (a ++ "="%char :: y).
Proof.
  unfold find_field. apply find_pointwise. intros f Hf.
  apply startswith_upto_equals.
  pose proof (key_names_alternatives fields names_keys) as Hk.
  unfold key_names in Hk. rewrite forallb_forall in Hk.
  now apply negb_true_iff, Hk.
Qed.

Lemma redact_head c s : exists r, redact (c :: s) = c :: r.
Proof.
  destruct (find_field alts (c :: s)) as [f|] eqn:E.
  - rewrite (redact_hit _ _ _ _ _ E).
    destruct (find_field_startswith _ _ _ E) as [t Ht].
    destruct f as [|b f]; simpl in *.
    + injection Ht as <- _. eauto.
    + injection Ht as <- _. eauto.
  - rewrite (redact_miss _ _ _ _ _ E). eauto.
Qed.

Lemma redact_upto_equals s :
  redact s = s \/
  exists a x y, s = a ++ "="%char :: x /\ redact s = a ++ "="%char :: y.
Proof.
  induction s as [|c s IH].
  - left. apply redact_nil.
  - destruct (find_field alts (c :: s)) as [f|] eqn:E.
    + right. rewrite (redact_hit _ _ _ _ _ E).
      destruct (find_field_startswith _ _ _ E) as [t Ht].
      exists f, t. eexists. split; [exact Ht | reflexivity].
    + rewrite (redact_miss _ _ _ _ _ E).
      destruct IH as [IH | [a [x [y [Hs Hr]]]]].
      * left. now rewrite IH.
      * right. exists (c :: a), x, y. split; simpl; congruence.
Qed.

Lemma redact_twice s : redact (redact s) = redact s.
Proof.
  remember (length s) as n eqn:Hn.
  revert s Hn. induction n as [n IH] using lt_wf_ind. intros s Hn.
  destruct s as [|c s]; [now rewrite !redact_nil|].
  destruct (find_field alts (c :: s)) as [f|] eqn:E.
  - destruct (find_field_startswith _ _ _ E) as [t Ht].
    rewrite (redact_hit _ _ _ _ _ E).
    assert (Hk : skipn (S (length f)) (c :: s) = t).
    { rewrite Ht, skipn_app, skipn_all2 by lia.
      replace (S (length f) - length f) with 1 by lia. reflexivity. }
    rewrite Hk.
    set (rest := drop_while value t).
    assert (E2 : find_field alts (f ++ "=" ++ redaction ++ redact rest) = Some f).
    { rewrite <- E, Ht. apply find_field_upto_equals. }
    rewrite (redact_hit _ _ _ _ _ E2). do 3 f_equal.
    assert (Hk2 : skipn (S (length f)) (f ++ "=" ++ redaction ++ redact rest)
                  = redaction ++ redact rest).
    { rewrite skipn_app, skipn_all2 by lia.
      replace (S (length f) - length f) with 1 by lia. reflexivity. }
    rewrite Hk2, drop_while_app_all by exact mask_value.
    assert (Hfix : drop_while value (redact rest) = redact rest).
    { destruct (drop_while_head value t) as [H0 | [d [r [Hd Hv]]]];
        fold rest in H0 || fold rest in Hd.
      - rewrite H0, redact_nil. reflexivity.
      - rewrite Hd. destruct (redact_head d r) as [r' Hr'].
        rewrite Hr'. simpl. now rewrite Hv. }
    rewrite Hfix. apply (IH (length rest)); [|reflexivity].
    subst n. rewrite Ht, length_app. simpl.
    pose proof (length_drop_while value t). fold rest in H. lia.
  - rewrite (redact_miss _ _ _ _ _ E).
    assert (E2 : find_field alts (c :: redact s) = None).
    { destruct (redact_upto_equals s) as [H | [a [x [y [Hs Hr]]]]].
      - now rewrite H.
      - rewrite Hr. rewrite Hs in E.
        rewrite <- E. apply (find_field_upto_equals (c :: a)). }
    rewrite (redact_miss _ _ _ _ _ E2). f_equal.
    apply (IH (length s)); [subst n; simpl; lia | reflexivity].
Qed.

End Twice.

(** ** The driving program *)

Lemma format_PII record :
  format (mkFormatter PII_FIELDS) record =
  Some (redact PII_FIELDS SEPARATOR REDACTION (rendered record)).
Proof.
  rewrite format_filter_datum.
  now apply filter_datum_redact.
Qed.

Lemma info_get_logger now msg :
  info get_logger now msg = ([ELog (log_line now msg)], inr tt).
Proof.
  unfold info, get_logger. cbn [handlers logger_name call_handlers].
  unfold emit. rewrite format_PII. unfold log_line.
  cbv [bind tell ret app]. reflexivity.
Qed.

Lemma skipn_nth_error {A} (l : list A) : forall i x,
  nth_error l i = Some x -> skipn i l = x :: skipn (S i) l.
Proof.
  induction l as [|a l IH]; intros [|i] x H; simpl in *; try discriminate.
  - now injection H as ->.
  - now apply IH.
Qed.

Lemma pairs_closed columns row : forall n i,
  i + n = length columns -> length columns <= length row ->
  pairs columns row i n =
  inr (row_pairs (skipn i columns) (skipn i row)).
Proof.
  induction n as [|n IH]; intros i Hi Hlen.
  - simpl. rewrite skipn_all2 by lia. reflexivity.
  - cbn [pairs].
    destruct (nth_error columns i) as [k|] eqn:Ek;
      [|apply nth_error_None in Ek; lia].
    destruct (nth_error row i) as [v|] eqn:Ev;
      [|apply nth_error_None in Ev; lia].
    rewrite (IH (S i)) by lia.
    rewrite (skipn_nth_error _ _ _ Ek), (skipn_nth_error _ _ _ Ev).
    reflexivity.
Qed.

Lemma row_message_closed columns row :
  length columns <= length row ->
  row_message columns row = inr (Py.join "; " (row_pairs columns row)).
Proof.
  intros H. unfold row_message.
  now rewrite (pairs_closed columns row (length columns) 0 eq_refl H).
Qed.

Lemma rows_loop_rows w rows : forall n,
  Forall (fun row => length (description w) <= length row) rows ->
  rows_loop w get_logger (description w) (map Some rows) n =
  (logged w rows n, inr tt).
Proof.
  induction rows as [|row rows IH]; intros n H; [reflexivity|].
  inversion H as [|? ? Hrow Hrows]; subst.
  cbn [map rows_loop logged].
  rewrite (row_message_closed _ _ Hrow), info_get_logger.
  cbn [bind]. now rewrite (IH (S n) Hrows).
Qed.

Lemma main_cases w :
  main w =
  if connect_ok w then
    if execute_ok w then
      match rows_loop w get_logger (description w) (fetches w) 0 with
      | (t, inr _) =>
          (connect_event w :: ECursor :: EExecute "SELECT * FROM users;"
             :: t ++ [ECloseCursor; ECloseDb], inr tt)
      | (t, inl e) =>
          (connect_event w :: ECursor :: EExecute "SELECT * FROM users;" :: t,
           inl e)
      end
    else ([connect_event w; ECursor], inl ExecuteError)
  else ([], inl ConnectError).
Proof.
  unfold main, get_db, connect_event.
  destruct (connect_ok w); [|reflexivity].
  destruct (execute_ok w); [|reflexivity].
  cbn [bind tell raise app].
  destruct (rows_loop w get_logger (description w) (fetches w) 0)
    as [t [e|[]]]; reflexivity.
Qed.

Lemma complete_rows_spec w rows :
  complete_rows w rows = true ->
  Forall (fun row => length (description w) <= length row) rows.
Proof.
  unfold complete_rows. intros H. apply Forall_forall. intros row Hin.
  rewrite forallb_forall in H. now apply Nat.leb_le, H.
Qed.

(** The trace of a run in which nothing fails. *)
Lemma main_success w rows :
  connect_ok w = true -> execute_ok w = true ->
  fetches w = map Some rows ->
  complete_rows w rows = true ->
  main w =
  (connect_event w :: ECursor :: EExecute "SELECT * FROM users;"
     :: logged w rows 0 ++ [ECloseCursor; ECloseDb], inr tt).
Proof.
  intros Hc He Hf Hr. rewrite main_cases, Hc, He, Hf.
  now rewrite rows_loop_rows by now apply complete_rows_spec.
Qed.

(** ** Resources *)

Lemma rows_loop_logs w columns : forall fs n,
  forallb is_log (fst (rows_loop w get_logger columns fs n)) = true.
Proof.
  induction fs as [|[row|] fs IH]; intros n; cbn [rows_loop];
    try reflexivity.
  destruct (row_message columns row) as [e|msg]; [reflexivity|].
  rewrite info_get_logger. cbn [bind].
  specialize (IH (S n)).
  destruct (rows_loop w get_logger columns fs (S n)) as [t r].
  exact IH.
Qed.

Lemma open_after_logs t : forall conn cursor,
  forallb is_log t = true -> open_after t conn cursor = (conn, cursor).
Proof.
  induction t as [|ev t IH]; intros conn cursor H; [reflexivity|].
  simpl in H. apply andb_prop in H as [Hev H].
  destruct ev; try discriminate; simpl; now apply IH.
Qed.

Lemma open_after_app t1 : forall t2 conn cursor,
  open_after (t1 ++ t2) conn cursor =
  open_after t2 (fst (open_after t1 conn cursor))
             (snd (open_after t1 conn cursor)).
Proof.
  induction t1 as [|ev t1 IH]; intros t2 conn cursor; [reflexivity|].
  destruct ev; simpl; apply IH.
Qed.

Lemma acquisitions_logs t :
  forallb is_log t = true ->
  filter is_connect t = [] /\ filter is_cursor t = [].
Proof.
  induction t as [|ev t IH]; intros H; [now split|].
  simpl in H. apply andb_prop in H as [Hev H].
  destruct (IH H) as [H1 H2].
  destruct ev; try discriminate; simpl; now split.
Qed.

(** ** The record as an object *)

Lemma Obj_attr_view o t m key :
  obj_asctime o = Some t -> obj_message o = Some m ->
  Obj.attr o key =
  Logging.attr (mkRecord (obj_name o) (obj_levelname o) t m) key.
Proof.
  intros Ht Hm. unfold Obj.attr, Logging.attr.
  cbn [name levelname asctime message]. now rewrite Ht, Hm.
Qed.

Lemma Obj_percent_view o t m :
  obj_asctime o = Some t -> obj_message o = Some m ->
  forall fmt md,
    Obj.percent fmt md o =
    Logging.percent fmt md (mkRecord (obj_name o) (obj_levelname o) t m).
Proof.
  intros Ht Hm. induction fmt as [|c rest IH]; intros md; [reflexivity|].
  cbn [Obj.percent Logging.percent].
  destruct md as [| |key_rev|key minus width];
    try destruct (Logging.digit c);
    rewrite ?IH, ?(Obj_attr_view o t m _ Ht Hm); reflexivity.
Qed.

Lemma usesTime_FORMAT : Obj.usesTime FORMAT = true.
Proof. vm_compute. reflexivity. Qed.

Lemma Obj_Formatter_format o :
  Obj.Formatter_format FORMAT o = (written o, Some (base_line o)).
Proof.
  destruct o as [n l c m ei et si om oa].
  unfold Obj.Formatter_format. rewrite usesTime_FORMAT.
  cbn [obj_name obj_levelname obj_created obj_msg obj_exc_info obj_exc_text
       obj_stack_info obj_message obj_asctime].
  rewrite (Obj_percent_view (mkObj n l c m ei et si (Some m) (Some c)) c m
                            eq_refl eq_refl).
  cbn [obj_name obj_levelname].
  change (Logging.percent FORMAT Logging.FText (mkRecord n l c m))
    with (Logging.Formatter_format FORMAT (mkRecord n l c m)).
  rewrite Formatter_format_rendered.
  unfold written, base_line, exc_text_after, view.
  cbn [obj_name obj_levelname obj_created obj_msg obj_exc_info obj_exc_text
       obj_stack_info obj_message obj_asctime].
  destruct ei as [text|]; [destruct (Obj.truthy et) eqn:E|];
    cbn [obj_name obj_levelname obj_created obj_msg obj_exc_info obj_exc_text
         obj_stack_info obj_message obj_asctime];
    rewrite ?E; reflexivity.
Qed.

Lemma Obj_format self o :
  forallb plain_name (fields self) = true ->
  Obj.format self o =
  (written o, Some (redact (fields self) SEPARATOR REDACTION (base_line o))).
Proof.
  intros Hp. unfold Obj.format. rewrite Obj_Formatter_format.
  now rewrite filter_datum_redact.
Qed.

Lemma exc_text_after_written o : exc_text_after (written o) = exc_text_after o.
Proof.
  destruct o as [n l c m ei et si om oa].
  unfold written, exc_text_after.
  cbn [obj_exc_info obj_exc_text].
  destruct ei as [text|]; [|reflexivity].
  destruct (Obj.truthy et) eqn:E; [now rewrite E|].
  now destruct (Obj.truthy (Some text)).
Qed.

Lemma written_written o : written (written o) = written o.
Proof.
  unfold written at 1. rewrite exc_text_after_written. reflexivity.
Qed.

Lemma base_line_written o : base_line (written o) = base_line o.
Proof.
  unfold base_line. rewrite exc_text_after_written. reflexivity.
Qed.

Lemma written_with_attributes o m t : written (with_attributes o m t) = written o.
Proof. reflexivity. Qed.

Lemma base_line_with_attributes o m t :
  base_line (with_attributes o m t) = base_line o.
Proof. reflexivity. Qed.

Lemma base_line_bare o : bare o = true -> base_line o = rendered (view o).
Proof.
  unfold bare, base_line, exc_text_after.
  destruct (obj_exc_info o); [discriminate|]. intros H.
  apply andb_prop in H as [H1 H2]. apply negb_true_iff in H1, H2.
  now rewrite H1, H2.
Qed.

(** ** Lists of names that are not empty *)

Lemma alternatives_names fields : fields <> [] -> alternatives fields = fields.
Proof. destruct fields; [congruence | reflexivity]. Qed.

(** * The claims *)

(** C1 (as it stands, refuted): with the field [name], the token
    [username=Bob] is not left as it is: its value is masked. *)
Lemma C1_counterexample :
  filter_datum ["name" : str] "***" "username=Bob" ";"
  = Some ("username=***" : str)
  /\ filter_datum ["name" : str] "***" "username=Bob" ";"
     <> Some ("username=Bob" : str).
Proof. split; [vm_compute; reflexivity | vm_compute; discriminate]. Qed.

(** C1 (amended): matching is by literal occurrence, not by whole key.  For
    a well-formed configuration with at least one field name, every token
    of the message is rewritten from the leftmost place where a field name
    immediately followed by the equals sign stands in it, so a key that
    only ends with a field name is redacted too; a token in which no field
    name followed by the equals sign stands is left identical; and
    [filter_datum(["name"], "***", "username=Bob", ";")] is
    ["username=***"]. *)
Theorem C1_matching_by_occurrence fields redaction c message :
  well_formed fields c = true -> fields <> [] ->
  filter_datum fields redaction message [c] =
    Some (Py.join [c]
            (map (redact_token fields redaction) (split c message)))
  /\ (forall tok, ~ occurs fields tok ->
        redact_token fields redaction tok = tok)
  /\ (forall f longer value, In f fields ->
        exists i g,
          i <= length longer /\ In g fields /\
          redact_token fields redaction (longer ++ f ++ "=" ++ value)
          = firstn i (longer ++ f ++ "=" ++ value) ++ g ++ "=" ++ redaction)
  /\ filter_datum ["name" : str] "***" "username=Bob" ";"
     = Some ("username=***" : str).
Proof.
  intros Hwf Hne.
  split; [rewrite <- (alternatives_names fields Hne) at 2;
          now apply filter_datum_tokens|].
  split; [intros tok; apply redact_token_untouched|].
  split; [|vm_compute; reflexivity].
  intros f longer value Hin.
  destruct (first_occurrence_found _ f longer value Hin) as [i [g [E Hi]]].
  exists i, g. split; [assumption|].
  split; [now apply first_occurrence_spec in E|].
  unfold redact_token. now rewrite E.
Qed.

(** The theorem at the field [name] and a message of two tokens. *)
Lemma C1_witness :
  filter_datum ["name" : str] "***" "id=7;username=Bob" ";"
  = Some ("id=7;username=***" : str).
Proof.
  refine (eq_trans (proj1 (C1_matching_by_occurrence
                             ["name" : str] "***" ";"%char
                             "id=7;username=Bob" eq_refl _)) _).
  - discriminate.
  - vm_compute. reflexivity.
Defined.

(** C2 (the code departs from the claim): with no field name the first
    group of the pattern is empty, so the pattern matches at every equals
    sign and every value of the message is masked, instead of the message
    being returned as it is. *)
Theorem C2_empty_fields_mask_every_value :
  pattern [] ";" = ("()=([^;]*)" : str)
  /\ filter_datum [] "***" "a=1;b=2" ";" = Some ("a=***;b=***" : str)
  /\ forall redaction message,
       filter_datum [] redaction message ";" =
       Some (Py.join ";" (map (redact_token [[]] redaction)
                              (split ";" message))).
Proof.
  split; [reflexivity|]. split; [vm_compute; reflexivity|].
  intros redaction message.
  exact (filter_datum_tokens [] redaction ";"%char message eq_refl).
Qed.

(** C3 (as it stands, refuted): content other than the tokens of the
    configured fields is changed.  With the fields of the program, the
    value of the key [username] is masked; and a logger whose name holds
    [name=] loses its level, its time and the first token of its message. *)
Lemma C3_counterexample :
  (format (mkFormatter PII_FIELDS)
          (mkRecord "user_data" "INFO" "2019-11-19 18:37:59,596"
                    "username=Bob;city=NYC")
   = Some ("[HOLBERTON] user_data INFO 2019-11-19 18:37:59,596: username=***;city=NYC"
           : str)
   /\ format (mkFormatter PII_FIELDS)
             (mkRecord "user_data" "INFO" "2019-11-19 18:37:59,596"
                       "username=Bob;city=NYC")
      <> Some ("[HOLBERTON] user_data INFO 2019-11-19 18:37:59,596: username=Bob;city=NYC"
               : str))
  /\ format (mkFormatter PII_FIELDS)
            (mkRecord "name=x" "INFO" "2019-11-19 18:37:59,596"
                      "city=NYC;ip=1")
     = Some ("[HOLBERTON] name=***;ip=1" : str).
Proof.
  split; [split|]; vm_compute; (reflexivity || discriminate).
Qed.

(** C3 (amended): [format] renders the base template from the record's
    name, level, time and message and hands the whole rendered line to
    [filter_datum] with the mask [***] and the separator [;].  For a
    well-formed list of at least one field name the result is the rendered
    line with each of its [;]-separated stretches rewritten once, from the
    leftmost place where a field name followed by the equals sign stands
    to the end of the stretch; what stands before that place in the
    stretch is kept, and so is every stretch in which no field name
    followed by the equals sign stands. *)
Theorem C3_format_redacts_rendered_line self record :
  well_formed (fields self) ";" = true -> fields self <> [] ->
  Logging.Formatter_format FORMAT record = Some (rendered record)
  /\ format self record =
     filter_datum (fields self) REDACTION (rendered record) SEPARATOR
  /\ format self record =
     Some (Py.join ";"
             (map (redact_token (fields self) "***")
                  (split ";" (rendered record))))
  /\ (forall stretch, ~ occurs (fields self) stretch ->
        redact_token (fields self) "***" stretch = stretch)
  /\ (forall f before value, In f (fields self) ->
        exists i g,
          i <= length before /\ In g (fields self) /\
          redact_token (fields self) "***" (before ++ f ++ "=" ++ value)
          = firstn i (before ++ f ++ "=" ++ value) ++ g ++ "=" ++ "***").
Proof.
  intros Hwf Hne. split; [apply Formatter_format_rendered|].
  split; [apply format_filter_datum|].
  split.
  - rewrite format_filter_datum.
    rewrite <- (alternatives_names (fields self) Hne) at 2.
    exact (filter_datum_tokens (fields self) REDACTION ";"%char _ Hwf).
  - split; [intros stretch; apply redact_token_untouched|].
    intros f before value Hin.
    destruct (first_occurrence_found _ f before value Hin) as [i [g [E Hi]]].
    exists i, g. split; [assumption|].
    split; [now apply first_occurrence_spec in E|].
    unfold redact_token. now rewrite E.
Qed.

(** The formatter of [get_logger] on a record of the program. *)
Lemma C3_witness :
  format (mkFormatter PII_FIELDS)
         (mkRecord "user_data" "INFO" "2019-11-19 18:37:59,596"
                   "phone=555-1234;city=NYC")
  = Some ("[HOLBERTON] user_data INFO 2019-11-19 18:37:59,596: phone=***;city=NYC"
          : str).
Proof.
  refine (eq_trans
            (proj1 (proj2 (proj2 (C3_format_redacts_rendered_line
                                    (mkFormatter PII_FIELDS)
                                    (mkRecord "user_data" "INFO"
                                              "2019-11-19 18:37:59,596"
                                              "phone=555-1234;city=NYC")
                                    eq_refl _)))) _).
  - discriminate.
  - vm_compute. reflexivity.
Defined.

(** C4 (as it stands, refuted): with a mask that holds the separator, a
    second application changes the message again; and so it does when a
    field name holds an equals sign and the mask completes it. *)
Lemma C4_counterexample :
  filter_datum ["a" : str] ";" "a=1" ";" = Some ("a=;" : str)
  /\ filter_datum ["a" : str] ";" "a=;" ";" = Some ("a=;;" : str)
  /\ ("a=;" : str) <> ("a=;;" : str)
  /\ filter_datum ["a" : str; "xa=m" : str] "m=" "xa=1" ";"
     = Some ("xa=m=" : str)
  /\ filter_datum ["a" : str; "xa=m" : str] "m=" "xa=m=" ";"
     = Some ("xa=m=m=" : str).
Proof.
  split; [vm_compute; reflexivity|]. split; [vm_compute; reflexivity|].
  split; [discriminate|]. split; vm_compute; reflexivity.
Qed.

(** C4 (amended): for literal field names that hold no equals sign, a
    literal separator and a mask that holds no separator character,
    [filter_datum] is idempotent: applied to its own output, with the same
    arguments, it returns that output. *)
Theorem C4_idempotent fields redaction message separator :
  forallb plain_name fields = true ->
  plain_separator separator = true ->
  key_names fields = true ->
  forallb (value_char separator) redaction = true ->
  exists out,
    filter_datum fields redaction message separator = Some out
    /\ filter_datum fields redaction out separator = Some out.
Proof.
  intros Hf Hs Hk Hm.
  exists (Shape.redact fields separator redaction message).
  rewrite !filter_datum_redact by assumption.
  split; [reflexivity|]. f_equal. now apply redact_twice.
Qed.

(** Idempotence on the fields of the program and a message of three tokens. *)
Lemma C4_witness :
  exists out,
    filter_datum PII_FIELDS "***" "name=Bob;email=b@x.org;ip=10.0.0.1" ";"
    = Some out
    /\ filter_datum PII_FIELDS "***" out ";" = Some out.
Proof.
  exact (C4_idempotent PII_FIELDS "***"
           "name=Bob;email=b@x.org;ip=10.0.0.1" ";"
           eq_refl eq_refl eq_refl eq_refl).
Defined.

(** C5: a field of the list that stands in the message as a key with an
    empty value (the key, the equals sign, then the separator or the end)
    is matched, and the empty value is replaced by the mask; the other
    tokens are redacted as usual. *)
Theorem C5_empty_value_masked fields redaction c before after f :
  well_formed fields c = true -> key_names fields = true -> In f fields ->
  forallb (forallb (value_char [c])) before = true ->
  forallb (forallb (value_char [c])) after = true ->
  filter_datum fields redaction
               (Py.join [c] (before ++ (f ++ "=") :: after)) [c]
  = Some (Py.join [c]
            (map (redact_token (alternatives fields) redaction) before
             ++ (f ++ "=" ++ redaction)
             :: map (redact_token (alternatives fields) redaction) after)).
Proof.
  intros Hwf Hk Hin Hb Ha.
  pose proof (filter_datum_key_token fields redaction c before after f []
                Hwf Hk Hin eq_refl Hb Ha) as H.
  now rewrite app_nil_r in H.
Qed.

(** The concrete case of the claim. *)
Lemma C5_witness :
  filter_datum ["email" : str] "XXX" "email=;user=a" ";"
  = Some ("email=XXX;user=a" : str).
Proof.
  exact (C5_empty_value_masked ["email" : str] "XXX" ";"%char
           [] ["user=a" : str] "email"
           eq_refl eq_refl (or_introl eq_refl) eq_refl eq_refl).
Defined.

(** C6 (as it stands, refuted): a mask that holds the separator adds a
    token, and with it a key, to the message. *)
Lemma C6_counterexample :
  filter_datum ["a" : str] ";b=" "a=1" ";" = Some ("a=;b=" : str)
  /\ keys_of ";" "a=1" = ["a" : str]
  /\ keys_of ";" "a=;b=" = ["a" : str; "b" : str].
Proof. repeat split; vm_compute; reflexivity. Qed.

(** C6 (amended): for a well-formed configuration whose mask holds no
    separator character, the keys of the output of [filter_datum], in
    order, are the keys of the input: redaction adds, removes and reorders
    no token and keeps every key as it is. *)
Theorem C6_keys_preserved fields redaction c message :
  well_formed fields c = true ->
  forallb (value_char [c]) redaction = true ->
  exists out,
    filter_datum fields redaction message [c] = Some out
    /\ keys_of c out = keys_of c message
    /\ length (split c out) = length (split c message).
Proof.
  intros Hwf Hm. eexists. split; [now apply filter_datum_tokens|].
  assert (E : split c (Py.join [c]
                (map (redact_token (alternatives fields) redaction)
                     (split c message)))
              = map (redact_token (alternatives fields) redaction)
                    (split c message)).
  { apply split_join.
    - pose proof (split_nonempty c message).
      now destruct (split c message).
    - apply Forall_map. eapply Forall_impl; [|apply split_value].
      intros tok Ht. now apply redact_token_value. }
  unfold keys_of. rewrite E, map_map, length_map. split; [|reflexivity].
  apply map_ext. intros tok. apply key_of_redact_token.
Qed.

(** The keys of a message of three tokens, two of them redacted. *)
Lemma C6_witness :
  exists out,
    filter_datum PII_FIELDS "***" "name=Bob;email=b@x.org;ip=10.0.0.1" ";"
    = Some out
    /\ keys_of ";" out = keys_of ";" "name=Bob;email=b@x.org;ip=10.0.0.1"
    /\ length (split ";" out)
       = length (split ";" "name=Bob;email=b@x.org;ip=10.0.0.1").
Proof.
  exact (C6_keys_preserved PII_FIELDS "***" ";"%char
           "name=Bob;email=b@x.org;ip=10.0.0.1" eq_refl eq_refl).
Defined.

(** C7 (as it stands, refuted): a call of [format] writes on the record
    that the caller handed it: the attributes [message] and [asctime],
    absent on the record that [logger.info] made, are there after it. *)
Lemma C7_counterexample :
  Obj.format (mkFormatter PII_FIELDS)
             (Obj.made "user_data" "INFO" "2019-11-19 18:37:59,596" "ssn=1")
  = (mkObj "user_data" "INFO" "2019-11-19 18:37:59,596" "ssn=1"
           None None None
           (Some ("ssn=1" : str)) (Some ("2019-11-19 18:37:59,596" : str)),
     Some ("[HOLBERTON] user_data INFO 2019-11-19 18:37:59,596: ssn=***"
           : str))
  /\ mkObj "user_data" "INFO" "2019-11-19 18:37:59,596" "ssn=1"
           None None None
           (Some ("ssn=1" : str)) (Some ("2019-11-19 18:37:59,596" : str))
     <> Obj.made "user_data" "INFO" "2019-11-19 18:37:59,596" "ssn=1".
Proof. split; [vm_compute; reflexivity | discriminate]. Qed.

(** C7 (amended): for literal field names a call of [format] returns a
    line, [filter_datum] of the line of the base formatter, and leaves the
    record with [message], [asctime] and the text of its exception, if it
    carries one, written and nothing else changed; a second call, on the
    record as the first left it, returns the same line and changes
    nothing more; the line does not depend on what [message] and
    [asctime] held before the call; and on a record without exception or
    stack information it is the line of [format] on the attributes that
    the template reads. *)
Theorem C7_format_writes_message_and_asctime self o :
  forallb plain_name (fields self) = true ->
  exists line,
    filter_datum (fields self) REDACTION (base_line o) SEPARATOR = Some line
    /\ Obj.format self o = (written o, Some line)
    /\ Obj.format self (written o) = (written o, Some line)
    /\ (forall m t,
          Obj.format self (with_attributes o m t) = (written o, Some line))
    /\ (bare o = true -> format self (view o) = Some line).
Proof.
  intros Hp.
  exists (redact (fields self) SEPARATOR REDACTION (base_line o)).
  split; [now apply filter_datum_redact|].
  split; [now apply Obj_format|].
  split; [now rewrite Obj_format, written_written, base_line_written|].
  split.
  - intros m t. rewrite Obj_format by assumption.
    now rewrite written_with_attributes, base_line_with_attributes.
  - intros Hb. rewrite format_filter_datum, <- (base_line_bare o Hb).
    now apply filter_datum_redact.
Qed.

(** The formatter of [get_logger] called twice on a record of the
    program. *)
Lemma C7_witness :
  exists line,
    filter_datum PII_FIELDS REDACTION
      (base_line (Obj.made "user_data" "INFO" "2019-11-19 18:37:59,596"
                           "ssn=1"))
      SEPARATOR = Some line
    /\ Obj.format (mkFormatter PII_FIELDS)
         (Obj.made "user_data" "INFO" "2019-11-19 18:37:59,596" "ssn=1")
       = (written (Obj.made "user_data" "INFO" "2019-11-19 18:37:59,596"
                            "ssn=1"),
          Some line)
    /\ Obj.format (mkFormatter PII_FIELDS)
         (written (Obj.made "user_data" "INFO" "2019-11-19 18:37:59,596"
                            "ssn=1"))
       = (written (Obj.made "user_data" "INFO" "2019-11-19 18:37:59,596"
                            "ssn=1"),
          Some line).
Proof.
  destruct (C7_format_writes_message_and_asctime
              (mkFormatter PII_FIELDS)
              (Obj.made "user_data" "INFO" "2019-11-19 18:37:59,596" "ssn=1")
              eq_refl) as [line [H1 [H2 [H3 _]]]].
  exists line. split; [exact H1|]. split; [exact H2 | exact H3].
Defined.

(** C8 (as it stands, refuted): the pairs of a row are joined with a
    semicolon and a space, not with the separator alone. *)
Lemma C8_counterexample :
  row_message ["name" : str; "email" : str] ["Bob" : str; "b@x.org" : str]
  = inr ("name=Bob; email=b@x.org" : str)
  /\ Py.join SEPARATOR ["name=Bob" : str; "email=b@x.org" : str]
     = ("name=Bob;email=b@x.org" : str)
  /\ ("name=Bob; email=b@x.org" : str) <> ("name=Bob;email=b@x.org" : str).
Proof.
  split; [vm_compute; reflexivity|].
  split; [vm_compute; reflexivity | discriminate].
Qed.

(** C8 (amended): for every row, [main] builds the message by joining the
    row's [column=value] pairs with the separator [;] of the formatter
    followed by a space, and feeds that message through the formatter of
    [get_logger]: the run logs, row by row, the formatted message. *)
Theorem C8_rows_joined_with_separator_and_space w rows :
  connect_ok w = true -> execute_ok w = true ->
  fetches w = map Some rows ->
  complete_rows w rows = true ->
  (forall row, In row rows ->
     row_message (description w) row =
     inr (Py.join (SEPARATOR ++ " ") (row_pairs (description w) row)))
  /\ (forall now msg,
        format (mkFormatter PII_FIELDS) (mkRecord "user_data" "INFO" now msg)
        = Some (log_line now msg))
  /\ fst (main w) =
     connect_event w :: ECursor :: EExecute "SELECT * FROM users;"
       :: logged w rows 0 ++ [ECloseCursor; ECloseDb].
Proof.
  intros Hc He Hf Hr. split; [|split].
  - intros row Hin. apply complete_rows_spec in Hr.
    rewrite Forall_forall in Hr. now apply row_message_closed, Hr.
  - intros now msg. apply format_PII.
  - now rewrite (main_success w rows Hc He Hf Hr).
Qed.

(** A run over one row. *)
Lemma C8_witness :
  fst (main (sample_world
               [Some ["Bob" : str; "b@x.org" : str; "10.0.0.1" : str]])) =
  [EConnect "root" "" "localhost" None; ECursor;
   EExecute "SELECT * FROM users;";
   ELog "[HOLBERTON] user_data INFO 2019-11-19 18:37:59,596: name=***; email=***; ip=10.0.0.1";
   ECloseCursor; ECloseDb].
Proof.
  rewrite (proj2 (proj2 (C8_rows_joined_with_separator_and_space
             (sample_world
                [Some ["Bob" : str; "b@x.org" : str; "10.0.0.1" : str]])
             [["Bob" : str; "b@x.org" : str; "10.0.0.1" : str]]
             eq_refl eq_refl eq_refl eq_refl))).
  vm_compute. reflexivity.
Defined.

(** C9 (as it stands, refuted): when a fetch fails after a row has been
    logged, the run ends with the error and with the cursor and the
    connection still open. *)
Lemma C9_counterexample :
  snd (main (sample_world
               [Some ["Bob" : str; "b@x.org" : str; "10.0.0.1" : str]; None]))
  = inl FetchError
  /\ open_after
       (fst (main (sample_world
                     [Some ["Bob" : str; "b@x.org" : str; "10.0.0.1" : str];
                      None])))
       false false
     = (true, true).
Proof. split; vm_compute; reflexivity. Qed.

(** C9 (amended): a run acquires one connection and one cursor, and when
    it completes without error it has closed both, the cursor first, as
    its last two actions; there is no release on an error path: when the
    query, a fetch or the building of a message raises, the error
    propagates with the cursor and the connection still open. *)
Theorem C9_closed_on_normal_exit_only w :
  (snd (main w) = inr tt ->
     open_after (fst (main w)) false false = (false, false)
     /\ acquisitions (fst (main w)) = (1, 1)
     /\ exists t, fst (main w) = t ++ [ECloseCursor; ECloseDb])
  /\ (forall e, snd (main w) = inl e -> e <> ConnectError ->
        open_after (fst (main w)) false false = (true, true)
        /\ acquisitions (fst (main w)) = (1, 1)).
Proof.
  rewrite main_cases.
  pose proof (rows_loop_logs w (description w) (fetches w) 0) as Hlogs.
  destruct (connect_ok w); [|split; [discriminate|]].
  2:{ intros e He Hne. injection He as <-. congruence. }
  destruct (execute_ok w); [|split; [discriminate|]].
  2:{ intros e _ _. now split. }
  destruct (rows_loop w get_logger (description w) (fetches w) 0)
    as [t [e|[]]]; cbn [fst snd] in *.
  - split; [discriminate|]. intros e' _ _.
    destruct (acquisitions_logs t Hlogs) as [H1 H2].
    unfold acquisitions, connect_event. cbn [open_after filter is_connect is_cursor].
    rewrite H1, H2, (open_after_logs t true true Hlogs). now split.
  - split; [|discriminate]. intros _.
    destruct (acquisitions_logs t Hlogs) as [H1 H2].
    unfold acquisitions, connect_event.
    cbn [open_after filter is_connect is_cursor].
    rewrite !filter_app, H1, H2, open_after_app,
      (open_after_logs t true true Hlogs).
    repeat split.
    now exists (connect_event w :: ECursor
                  :: EExecute "SELECT * FROM users;" :: t).
Qed.

(** A run over one row leaves nothing open. *)
Lemma C9_witness :
  open_after
    (fst (main (sample_world
                  [Some ["Bob" : str; "b@x.org" : str; "10.0.0.1" : str]])))
    false false
  = (false, false).
Proof.
  apply (proj1 (C9_closed_on_normal_exit_only
                  (sample_world
                     [Some ["Bob" : str; "b@x.org" : str; "10.0.0.1" : str]]))).
  vm_compute. reflexivity.
Defined.

(** C10: when the value of a matched field holds an equals sign, the whole
    run from the key's equals sign to the next separator or the end is
    masked, not only the part before the inner equals sign. *)
Theorem C10_value_with_equals_masked fields redaction c before after f v1 v2 :
  well_formed fields c = true -> key_names fields = true -> In f fields ->
  forallb (value_char [c]) (v1 ++ "=" ++ v2) = true ->
  forallb (forallb (value_char [c])) before = true ->
  forallb (forallb (value_char [c])) after = true ->
  filter_datum fields redaction
               (Py.join [c] (before ++ (f ++ "=" ++ v1 ++ "=" ++ v2) :: after))
               [c]
  = Some (Py.join [c]
            (map (redact_token (alternatives fields) redaction) before
             ++ (f ++ "=" ++ redaction)
             :: map (redact_token (alternatives fields) redaction) after)).
Proof.
  intros Hwf Hk Hin Hv Hb Ha.
  exact (filter_datum_key_token fields redaction c before after f
           (v1 ++ "=" ++ v2) Hwf Hk Hin Hv Hb Ha).
Qed.

(** The concrete case of the claim. *)
Lemma C10_witness :
  filter_datum ["password" : str] "***" "password=a=b;x=1" ";"
  = Some ("password=***;x=1" : str).
Proof.
  exact (C10_value_with_equals_masked ["password" : str] "***" ";"%char
           [] ["x=1" : str] "password" "a" "b"
           eq_refl eq_refl (or_introl eq_refl) eq_refl eq_refl eq_refl).
Defined.
(** * Further properties *)

(** ** Cutting a message at a separator *)

Lemma str_eqb_eq a b : Logging.str_eqb a b = true <-> a = b.
Proof.
  unfold Logging.str_eqb.
  destruct (list_eq_dec Ascii.ascii_dec a b); split; congruence.
Qed.

Lemma redact_tokens fields redaction c s :
  well_formed fields c = true ->
  redact fields [c] redaction s =
  Py.join [c] (map (redact_token (alternatives fields) redaction) (split c s)).
Proof.
  intros Hwf. pose proof (filter_datum_tokens fields redaction c s Hwf) as H.
  rewrite filter_datum_redact in H
    by eauto using well_formed_plain, well_formed_separator.
  now injection H.
Qed.

Lemma split_app c a b : split c (a ++ c :: b) = split c a ++ split c b.
Proof.
  induction a as [|x a IH]; cbn [app split].
  - now rewrite Ascii.eqb_refl.
  - rewrite IH. destruct (Ascii.eqb x c); [reflexivity|].
    pose proof (split_nonempty c a) as Hn.
    now destruct (split c a).
Qed.

Lemma join_app c xs ys :
  xs <> [] -> ys <> [] ->
  Py.join [c] (xs ++ ys) = Py.join [c] xs ++ c :: Py.join [c] ys.
Proof.
  intros Hx Hy. induction xs as [|x xs IH]; [congruence|].
  destruct xs as [|x2 xs].
  - destruct ys; [congruence | reflexivity].
  - change (Py.join [c] ((x :: x2 :: xs) ++ ys))
      with (x ++ c :: Py.join [c] ((x2 :: xs) ++ ys)).
    rewrite IH by discriminate.
    change (Py.join [c] (x :: x2 :: xs)) with (x ++ c :: Py.join [c] (x2 :: xs)).
    now rewrite <- app_assoc.
Qed.

(** A message is redacted on each side of a separator on its own. *)
Lemma redact_cut_any fields redaction c a b :
  well_formed fields c = true ->
  redact fields [c] redaction (a ++ c :: b) =
  redact fields [c] redaction a ++ c :: redact fields [c] redaction b.
Proof.
  intros Hwf. rewrite !redact_tokens by assumption.
  rewrite split_app, map_app. apply join_app.
  - pose proof (split_nonempty c a). now destruct (split c a).
  - pose proof (split_nonempty c b). now destruct (split c b).
Qed.

(** ** Text before the first equals sign *)

Lemma find_field_header fields h s :
  spaceless fields = true -> Py.mem "=" h = false ->
  find_field (alternatives fields) (h ++ " "%char :: s) = None.
Proof.
  intros Hsp Hh.
  destruct (find_field _ _) as [f|] eqn:E; [exfalso | reflexivity].
  pose proof (find_field_in _ _ _ E) as Hin.
  apply find_field_startswith in E as [t Ht].
  assert (Hf : Py.mem " " f = false).
  { destruct fields as [|g fs]; [destruct Hin as [<-|[]]; reflexivity|].
    unfold spaceless in Hsp. rewrite forallb_forall in Hsp.
    now apply negb_true_iff, Hsp. }
  clear Hin Hsp. revert f Hf Ht.
  induction h as [|x h IH]; intros f Hf Ht.
  - destruct f as [|y f]; [discriminate|].
    injection Ht as Hy _. subst y. unfold Py.mem in Hf. simpl in Hf.
    discriminate.
  - unfold Py.mem in Hh. simpl in Hh.
    apply orb_false_elim in Hh as [Hx Hh].
    destruct f as [|y f].
    + injection Ht as Hy _. subst x. rewrite Ascii.eqb_refl in Hx.
      discriminate.
    + injection Ht as Hy Ht. apply (IH Hh f); [|assumption].
      unfold Py.mem in *. simpl in Hf.
      now apply orb_false_elim in Hf as [_ Hf].
Qed.

(** Text that holds no equals sign and ends with a space is kept, and
    what follows it is redacted as if it stood alone. *)
Lemma redact_header fields separator redaction h s :
  spaceless fields = true -> Py.mem "=" h = false ->
  redact fields separator redaction (h ++ " "%char :: s) =
  h ++ " "%char :: redact fields separator redaction s.
Proof.
  intros Hsp Hh. induction h as [|x h IH].
  - apply redact_miss. now apply (find_field_header fields []).
  - cbn [app]. rewrite redact_miss by now apply (find_field_header fields (x :: h)).
    f_equal. apply IH. unfold Py.mem in *. simpl in Hh.
    now apply orb_false_elim in Hh as [_ Hh].
Qed.

Lemma mem_app c a b : Py.mem c (a ++ b) = Py.mem c a || Py.mem c b.
Proof. unfold Py.mem. apply existsb_app. Qed.

Lemma join_in c toks tok :
  In tok toks -> exists a b, Py.join [c] toks = a ++ tok ++ b.
Proof.
  induction toks as [|t toks IH]; intros Hin; [contradiction|].
  destruct toks as [|t2 toks].
  - destruct Hin as [->|[]]. exists [], []. now rewrite app_nil_r.
  - change (Py.join [c] (t :: t2 :: toks))
      with (t ++ c :: Py.join [c] (t2 :: toks)).
    destruct Hin as [->|Hin].
    + now exists [], (c :: Py.join [c] (t2 :: toks)).
    + destruct (IH Hin) as [a [b E]]. rewrite E.
      exists (t ++ c :: a), b. now rewrite <- app_assoc.
Qed.

Lemma redact_untouched fields redaction c s :
  well_formed fields c = true ->
  ~ occurs (alternatives fields) s ->
  redact fields [c] redaction s = s.
Proof.
  intros Hwf Hno. rewrite redact_tokens by assumption.
  rewrite <- (join_split c s) at 2. f_equal.
  rewrite <- (map_id (split c s)) at 2.
  apply map_ext_in. intros tok Hin. apply redact_token_untouched.
  intros [pre [f [post [Hf ->]]]]. apply Hno.
  destruct (join_in c _ _ Hin) as [a [b E]].
  rewrite join_split in E.
  exists (a ++ pre), f, (post ++ b). split; [assumption|].
  rewrite E. now rewrite <- !app_assoc.
Qed.

(** ** What [filter_datum] does *)



(** *** The order of the names *)

Lemma same_names_in fields1 fields2 :
  same_names fields1 fields2 = true ->
  forall f, In f (alternatives fields1) <-> In f (alternatives fields2).
Proof.
  unfold same_names. intros H. apply andb_prop in H as [H1 H2].
  rewrite forallb_forall in H1, H2.
  assert (A : forall l1 l2,
             (forall x, In x l1 -> existsb (Logging.str_eqb x) l2 = true) ->
             forall f, In f l1 -> In f l2).
  { intros l1 l2 Hl f Hf. apply Hl in Hf.
    apply existsb_exists in Hf as [y [Hy E]].
    apply str_eqb_eq in E. now subst. }
  pose proof (A _ _ H1) as A1. pose proof (A _ _ H2) as A2.
  destruct fields1 as [|f1 l1], fields2 as [|f2 l2]; intros f.
  - reflexivity.
  - exfalso. apply (A2 f2). now left.
  - exfalso. apply (A1 f1). now left.
  - cbn [alternatives]. split; [apply A1 | apply A2].
Qed.

Lemma find_field_included alts1 alts2 s f :
  key_names alts1 = true -> key_names alts2 = true ->
  (forall g, In g alts1 -> In g alts2) ->
  find_field alts1 s = Some f -> find_field alts2 s = Some f.
Proof.
  intros K1 K2 Hincl E.
  pose proof (find_field_in _ _ _ E) as Hin.
  destruct (find_field_startswith _ _ _ E) as [t Ht].
  destruct (find_field_found alts2 f s t (Hincl f Hin) Ht) as [g Hg].
  rewrite Hg. f_equal.
  pose proof (find_field_in _ _ _ Hg) as Hing.
  unfold find_field in Hg. apply find_some in Hg as [_ Hg].
  unfold key_names in K1, K2. rewrite forallb_forall in K1, K2.
  rewrite Ht in Hg. apply (same_key g f t); try assumption.
  - now apply negb_true_iff, K2.
  - now apply negb_true_iff, K1.
Qed.

Lemma find_field_same_names fields1 fields2 s :
  key_names fields1 = true -> key_names fields2 = true ->
  same_names fields1 fields2 = true ->
  find_field (alternatives fields1) s = find_field (alternatives fields2) s.
Proof.
  intros K1 K2 Hs.
  apply key_names_alternatives in K1. apply key_names_alternatives in K2.
  pose proof (same_names_in _ _ Hs) as Hin.
  destruct (find_field (alternatives fields1) s) as [f|] eqn:E1.
  - symmetry.
    apply (find_field_included (alternatives fields1) (alternatives fields2)
             s f K1 K2); [intros g; apply Hin | exact E1].
  - destruct (find_field (alternatives fields2) s) as [f|] eqn:E2;
      [|reflexivity].
    apply (find_field_included (alternatives fields2) (alternatives fields1)
             s f K2 K1) in E2; [congruence | intros g; apply Hin].
Qed.

Lemma redact_same_finder fields1 fields2 separator redaction :
  (forall s, find_field (alternatives fields1) s
             = find_field (alternatives fields2) s) ->
  forall s, redact fields1 separator redaction s
            = redact fields2 separator redaction s.
Proof.
  intros Hfind s.
  remember (length s) as n eqn:Hn.
  revert s Hn. induction n as [n IH] using lt_wf_ind. intros s Hn.
  destruct s as [|c s]; [now rewrite !redact_nil|].
  destruct (find_field (alternatives fields1) (c :: s)) as [f|] eqn:E.
  - pose proof E as E2. rewrite Hfind in E2.
    rewrite (redact_hit _ _ _ _ _ E), (redact_hit _ _ _ _ _ E2).
    do 3 f_equal.
    destruct (find_field_startswith _ _ _ E) as [t Ht].
    apply (IH (length (drop_while (value_char separator)
                         (skipn (S (length f)) (c :: s))))); [|reflexivity].
    subst n. rewrite Ht at 1 2. rewrite skipn_app, skipn_all2 by lia.
    replace (S (length f) - length f) with 1 by lia. cbn [skipn app].
    pose proof (length_drop_while (value_char separator) t).
    rewrite length_app. simpl. lia.
  - pose proof E as E2. rewrite Hfind in E2.
    rewrite (redact_miss _ _ _ _ _ E), (redact_miss _ _ _ _ _ E2).
    f_equal. apply (IH (length s)); [subst n; simpl; lia | reflexivity].
Qed.

(** X2: the names are a set: for literal names that hold no equals sign,
    their order in the list and their repetitions do not change the
    result of [filter_datum]. *)
Theorem X2_order_of_fields_irrelevant
        fields1 fields2 redaction message separator :
  forallb plain_name fields1 = true -> forallb plain_name fields2 = true ->
  plain_separator separator = true ->
  key_names fields1 = true -> key_names fields2 = true ->
  same_names fields1 fields2 = true ->
  filter_datum fields1 redaction message separator =
  filter_datum fields2 redaction message separator.
Proof.
  intros P1 P2 Ps K1 K2 Hs.
  rewrite !filter_datum_redact by assumption. f_equal.
  apply redact_same_finder. intros s. now apply find_field_same_names.
Qed.

(** The names of the program, shuffled and repeated. *)
Lemma X2_witness :
  filter_datum PII_FIELDS "***" "name=Bob;ssn=1;ip=2" ";" =
  filter_datum ["ssn" : str; "password" : str; "name" : str; "ssn" : str;
                "phone" : str; "email" : str]
               "***" "name=Bob;ssn=1;ip=2" ";".
Proof.
  exact (X2_order_of_fields_irrelevant
           PII_FIELDS
           ["ssn" : str; "password" : str; "name" : str; "ssn" : str;
            "phone" : str; "email" : str]
           "***" "name=Bob;ssn=1;ip=2" ";"
           eq_refl eq_refl eq_refl eq_refl eq_refl eq_refl).
Defined.

(** *** Values that are hidden *)

Lemma first_occurrence_secret fields k :
  key_names fields = true -> In k (alternatives fields) ->
  forall h x y,
    first_occurrence (alternatives fields) (h ++ k ++ "=" ++ x) =
    first_occurrence (alternatives fields) (h ++ k ++ "=" ++ y).
Proof.
  intros Hk Hin h x y. induction h as [|c h IH].
  - cbn [app].
    rewrite !(first_occurrence_hit _ _ k)
      by (apply find_field_key; auto using key_names_alternatives).
    reflexivity.
  - cbn [app first_occurrence].
    assert (E : find_field (alternatives fields) (c :: h ++ k ++ "=" ++ x)
                = find_field (alternatives fields) (c :: h ++ k ++ "=" ++ y)).
    { pose proof (find_field_upto_equals fields Hk (c :: h ++ k) x y) as H.
      cbn [app] in H. rewrite <- !app_assoc in H. exact H. }
    rewrite E, IH. reflexivity.
Qed.

Lemma redact_token_secret fields mask k h x y :
  key_names fields = true -> In k (alternatives fields) ->
  redact_token (alternatives fields) mask (h ++ k ++ "=" ++ x) =
  redact_token (alternatives fields) mask (h ++ k ++ "=" ++ y).
Proof.
  intros Hk Hin. unfold redact_token.
  rewrite (first_occurrence_secret fields k Hk Hin h x y).
  destruct (first_occurrence_found (alternatives fields) k h y Hin)
    as [i [g [E Hi]]].
  rewrite E. f_equal.
  rewrite !firstn_app. replace (i - length h) with 0 by lia.
  reflexivity.
Qed.

Lemma redact_join_any fields redaction c parts :
  well_formed fields c = true ->
  redact fields [c] redaction (Py.join [c] parts) =
  Py.join [c] (map (redact fields [c] redaction) parts).
Proof.
  intros Hwf. induction parts as [|p parts IH]; [apply redact_nil|].
  destruct parts as [|p2 parts]; [reflexivity|].
  change (Py.join [c] (p :: p2 :: parts))
    with (p ++ c :: Py.join [c] (p2 :: parts)).
  rewrite redact_cut_any, IH by assumption. reflexivity.
Qed.

Lemma redact_value_token fields redaction c tok :
  well_formed fields c = true ->
  forallb (value_char [c]) tok = true ->
  redact fields [c] redaction tok =
  redact_token (alternatives fields) redaction tok.
Proof.
  intros Hwf Hv. rewrite redact_tokens, split_token by assumption.
  reflexivity.
Qed.

(** X3: the value of a listed field is hidden.  For a well-formed
    configuration whose names hold no equals sign, two messages that
    differ only in the value of a token whose key is, or ends with, a
    listed name have the same output: nothing of that value is left in
    it. *)
Theorem X3_value_of_listed_field_hidden
        fields redaction c before after longer k value1 value2 :
  well_formed fields c = true -> key_names fields = true -> In k fields ->
  forallb (value_char [c]) (longer ++ value1 ++ value2) = true ->
  filter_datum fields redaction
    (Py.join [c] (before ++ (longer ++ k ++ "=" ++ value1) :: after)) [c] =
  filter_datum fields redaction
    (Py.join [c] (before ++ (longer ++ k ++ "=" ++ value2) :: after)) [c].
Proof.
  intros Hwf Hk Hin Hv.
  rewrite !forallb_app in Hv.
  apply andb_prop in Hv as [Hl Hv]. apply andb_prop in Hv as [Hv1 Hv2].
  pose proof (well_formed_names fields c Hwf k (in_alternatives _ _ Hin)) as Hkv.
  pose proof (well_formed_equals fields c Hwf) as He.
  rewrite !filter_datum_redact
    by eauto using well_formed_plain, well_formed_separator.
  f_equal. rewrite !redact_join_any by assumption. f_equal.
  rewrite !map_app. cbn [map]. do 2 f_equal.
  rewrite !redact_value_token; try assumption.
  - apply redact_token_secret; auto using in_alternatives.
  - rewrite !forallb_app, Hl, Hkv, Hv2. cbn. now rewrite He.
  - rewrite !forallb_app, Hl, Hkv, Hv1. cbn. now rewrite He.
Qed.

(** Two passwords, one output. *)
Lemma X3_witness :
  filter_datum PII_FIELDS "***" "id=7;old_password=hunter2;ip=1" ";" =
  filter_datum PII_FIELDS "***" "id=7;old_password=12345;ip=1" ";".
Proof.
  exact (X3_value_of_listed_field_hidden
           PII_FIELDS "***" ";"%char ["id=7" : str] ["ip=1" : str]
           "old_" "password" "hunter2" "12345"
           eq_refl eq_refl
           (or_intror (or_intror (or_intror (or_intror (or_introl eq_refl)))))
           eq_refl).
Defined.

(** *** The separator *)



Lemma steps_first_group fields :
  forallb plain_name fields = true ->
  steps (PState Normal [Frame 1 [] []] [] [] 2)
        (Py.join "|" fields ++ (")" : str)) =
  Some (PState Normal [] []
               [Grp 1 (mkalt (map lit (alternatives fields)))] 2).
Proof.
  intros Hf. destruct fields as [|f fs].
  - reflexivity.
  - erewrite steps_names; try reflexivity; assumption.
Qed.

(** X5: an empty separator leaves the set of the pattern without an end:
    for literal names [re] refuses the pattern, and [filter_datum] returns
    no message, whatever the message. *)
Theorem X5_empty_separator_refused fields redaction message :
  forallb plain_name fields = true ->
  filter_datum fields redaction message [] = None.
Proof.
  intros Hf. unfold filter_datum, compile, pattern.
  change (("(" : str) ++ ?x) with ("("%char :: x).
  cbn [steps].
  change (step init "(") with (Some (PState Normal [Frame 1 [] []] [] [] 2)).
  cbv iota.
  change ((")=([^" : str) ++ [] ++ ?x)
    with ((")" : str) ++ ("=([^" : str) ++ x).
  rewrite app_assoc, steps_app, steps_first_group by assumption.
  vm_compute. reflexivity.
Qed.

(** The names of the program and no separator. *)
Lemma X5_witness : filter_datum PII_FIELDS "***" "name=Bob" "" = None.
Proof. exact (X5_empty_separator_refused PII_FIELDS "***" "name=Bob" eq_refl). Defined.

(** ** What [format] does *)

Lemma mem_repeat_space n : Py.mem "=" (repeat " "%char n) = false.
Proof. induction n as [|n IH]; [reflexivity|]. exact IH. Qed.

Lemma redact_rendered fields separator redaction record :
  spaceless fields = true ->
  Py.mem "=" (name record ++ levelname record ++ asctime record) = false ->
  redact fields separator redaction (rendered record) =
  header record ++ redact fields separator redaction (message record).
Proof.
  intros Hsp Hm.
  rewrite !mem_app in Hm.
  apply orb_false_elim in Hm as [Hn Hm]. apply orb_false_elim in Hm as [Hl Ha].
  set (h := ("[HOLBERTON] " : str) ++ name record ++ (" " : str)
            ++ levelname record ++ (" " : str)
            ++ Py.ljust 15 (asctime record) ++ (":" : str)).
  assert (Hr : rendered record = h ++ " "%char :: message record).
  { unfold rendered, h. now rewrite <- !app_assoc. }
  assert (Hh : header record = h ++ [" "%char]).
  { unfold header, h. now rewrite <- !app_assoc. }
  rewrite Hr, Hh, redact_header; [now rewrite <- app_assoc | assumption |].
  unfold h, Py.ljust. rewrite !mem_app, Hn, Hl, Ha, mem_repeat_space.
  reflexivity.
Qed.



(** ** What [main] does *)

Lemma emit_PII now msg :
  emit (mkFormatter PII_FIELDS) (mkRecord "user_data" "INFO" now msg) =
  ([ELog (log_line now msg)], inr tt).
Proof.
  unfold emit. rewrite format_PII. unfold log_line. cbv [tell]. reflexivity.
Qed.

Lemma call_handlers_PII now msg hs :
  Forall (fun h => h = mkFormatter PII_FIELDS) hs ->
  call_handlers hs (mkRecord "user_data" "INFO" now msg) =
  (repeat (ELog (log_line now msg)) (length hs), inr tt).
Proof.
  induction 1 as [|h hs Hh Hhs IH]; [reflexivity|].
  subst h. cbn [call_handlers length repeat].
  rewrite emit_PII, IH. reflexivity.
Qed.

Lemma get_logger_calls_handlers n : forall earlier,
  logger_name (get_logger_calls n earlier) = "user_data"
  /\ handlers (get_logger_calls n earlier) =
     earlier ++ repeat (mkFormatter PII_FIELDS) n.
Proof.
  induction n as [|n IH]; intros earlier; cbn [get_logger_calls].
  - cbn [repeat handlers logger_name]. now rewrite app_nil_r.
  - destruct (IH (handlers (get_logger_in earlier))) as [Hn Hh].
    split; [exact Hn|]. rewrite Hh. unfold get_logger_in. cbn [handlers].
    rewrite <- app_assoc. reflexivity.
Qed.

Lemma info_get_logger_calls n now msg :
  info (get_logger_calls n []) now msg =
  (repeat (ELog (log_line now msg)) n, inr tt).
Proof.
  destruct (get_logger_calls_handlers n []) as [Hn Hh].
  unfold info. rewrite Hn, Hh. cbn [app].
  rewrite call_handlers_PII.
  - now rewrite repeat_length.
  - apply Forall_forall. intros h Hin. now apply repeat_spec in Hin.
Qed.

Lemma rows_loop_rows_times k w rows : forall n,
  Forall (fun row => length (description w) <= length row) rows ->
  rows_loop w (get_logger_calls k []) (description w) (map Some rows) n =
  (logged_times k w rows n, inr tt).
Proof.
  induction rows as [|row rows IH]; intros n H; [reflexivity|].
  inversion H as [|? ? Hrow Hrows]; subst.
  cbn [map rows_loop logged_times].
  rewrite (row_message_closed _ _ Hrow), info_get_logger_calls.
  unfold bind. rewrite (IH (S n) Hrows). reflexivity.
Qed.

Lemma lines_app t1 t2 : lines (t1 ++ t2) = lines t1 ++ lines t2.
Proof.
  induction t1 as [|ev t1 IH]; [reflexivity|].
  destruct ev; cbn [app lines]; now rewrite ?IH.
Qed.

Lemma lines_repeat line k : lines (repeat (ELog line) k) = repeat line k.
Proof. induction k as [|k IH]; [reflexivity|]. cbn [repeat lines]. now rewrite IH. Qed.

Lemma length_lines_logged_times k w rows : forall n,
  length (lines (logged_times k w rows n)) = k * length rows.
Proof.
  induction rows as [|row rows IH]; intros n; cbn [logged_times].
  - cbn [lines length]. lia.
  - rewrite lines_app, length_app, lines_repeat, repeat_length, IH.
    cbn [length]. lia.
Qed.

Lemma main_after_first w : main_after 0 w = main w.
Proof.
  unfold main_after, main.
  change (get_logger_calls 1 []) with get_logger. reflexivity.
Qed.

(** X7: a run in which nothing fails logs every row once for each call
    of [get_logger] that the process has made, its own included, in the
    order of the rows and between the query and the two closings: after
    [n] earlier calls, [n + 1] equal lines for each row; and with no
    earlier call the run is [main] as the claims have it, with exactly one
    line for each row. *)
Theorem X7_one_line_per_row_and_call n w rows :
  connect_ok w = true -> execute_ok w = true ->
  fetches w = map Some rows ->
  complete_rows w rows = true ->
  main_after n w =
    (connect_event w :: ECursor :: EExecute "SELECT * FROM users;"
       :: logged_times (S n) w rows 0 ++ [ECloseCursor; ECloseDb], inr tt)
  /\ length (lines (fst (main_after n w))) = S n * length rows
  /\ main_after 0 w = main w
  /\ length (lines (fst (main w))) = length rows.
Proof.
  intros Hc He Hf Hr.
  assert (E : forall k,
             main_after k w =
             (connect_event w :: ECursor :: EExecute "SELECT * FROM users;"
                :: logged_times (S k) w rows 0 ++ [ECloseCursor; ECloseDb],
              inr tt)).
  { intros k. unfold main_after, get_db. rewrite Hc, He, Hf.
    rewrite rows_loop_rows_times by now apply complete_rows_spec.
    cbv [bind tell ret]. cbn [app]. reflexivity. }
  assert (L : forall k,
             length (lines (fst (main_after k w))) = S k * length rows).
  { intros k. rewrite E. unfold connect_event. cbn [fst lines].
    rewrite lines_app, length_app, length_lines_logged_times.
    cbn [lines length]. lia. }
  split; [apply E|]. split; [apply L|].
  split; [apply main_after_first|].
  rewrite <- main_after_first, L. lia.
Qed.

(** Two rows, two lines. *)
Lemma X7_witness :
  length (lines (fst (main (sample_world
                    [Some ["Bob" : str; "b@x.org" : str; "10.0.0.1" : str];
                     Some ["Eve" : str; "e@x.org" : str; "10.0.0.2" : str]]))))
  = 2.
Proof.
  exact (proj2 (proj2 (proj2 (X7_one_line_per_row_and_call 0
                  (sample_world
                     [Some ["Bob" : str; "b@x.org" : str; "10.0.0.1" : str];
                      Some ["Eve" : str; "e@x.org" : str; "10.0.0.2" : str]])
                  [["Bob" : str; "b@x.org" : str; "10.0.0.1" : str];
                   ["Eve" : str; "e@x.org" : str; "10.0.0.2" : str]]
                  eq_refl eq_refl eq_refl eq_refl)))).
Defined.

(** *** Runs that fail *)

Lemma rows_loop_app w rows rest : forall n,
  Forall (fun row => length (description w) <= length row) rows ->
  rows_loop w get_logger (description w) (map Some rows ++ rest) n =
  (logged w rows n
     ++ fst (rows_loop w get_logger (description w) rest (length rows + n)),
   snd (rows_loop w get_logger (description w) rest (length rows + n))).
Proof.
  induction rows as [|row rows IH]; intros n H.
  - cbn [map app logged length Nat.add].
    now destruct (rows_loop w get_logger (description w) rest n).
  - inversion H as [|? ? Hrow Hrows]; subst.
    cbn [map app rows_loop logged length].
    rewrite (row_message_closed _ _ Hrow), info_get_logger.
    cbn [bind]. rewrite (IH (S n) Hrows).
    replace (length rows + S n) with (S (length rows) + n) by lia.
    reflexivity.
Qed.

Lemma pairs_short columns row : forall n i,
  i + n = length columns -> i <= length row -> length row < length columns ->
  pairs columns row i n = inl IndexError.
Proof.
  induction n as [|n IH]; intros i Hi Hle Hlt; [lia|].
  cbn [pairs].
  destruct (nth_error columns i) as [k|] eqn:Ek;
    [|apply nth_error_None in Ek; lia].
  destruct (nth_error row i) as [v|] eqn:Ev; [|reflexivity].
  assert (i < length row) by (apply nth_error_Some; congruence).
  now rewrite (IH (S i)) by lia.
Qed.

Lemma row_message_short columns row :
  length row < length columns -> row_message columns row = inl IndexError.
Proof.
  intros H. unfold row_message.
  now rewrite (pairs_short columns row (length columns) 0) by lia.
Qed.

(** X8: a run stops at the first fetch that fails: the lines of the rows
    fetched before it have been logged and stay, no later row is logged,
    and the error propagates. *)
Theorem X8_stops_at_failed_fetch w rows later :
  connect_ok w = true -> execute_ok w = true ->
  fetches w = map Some rows ++ None :: later ->
  complete_rows w rows = true ->
  main w =
    (connect_event w :: ECursor :: EExecute "SELECT * FROM users;"
       :: logged w rows 0, inl FetchError).
Proof.
  intros Hc He Hf Hr. rewrite main_cases, Hc, He, Hf.
  rewrite rows_loop_app by now apply complete_rows_spec.
  cbn [rows_loop raise fst snd]. now rewrite app_nil_r.
Qed.

(** One row, then a failure, then a row that is never read. *)
Lemma X8_witness :
  main (sample_world
          [Some ["Bob" : str; "b@x.org" : str; "10.0.0.1" : str]; None;
           Some ["Eve" : str; "e@x.org" : str; "10.0.0.2" : str]])
  = ([EConnect "root" "" "localhost" None; ECursor;
      EExecute "SELECT * FROM users;";
      ELog "[HOLBERTON] user_data INFO 2019-11-19 18:37:59,596: name=***; email=***; ip=10.0.0.1"],
     inl FetchError).
Proof.
  refine (eq_trans
            (X8_stops_at_failed_fetch
               (sample_world
                  [Some ["Bob" : str; "b@x.org" : str; "10.0.0.1" : str]; None;
                   Some ["Eve" : str; "e@x.org" : str; "10.0.0.2" : str]])
               [["Bob" : str; "b@x.org" : str; "10.0.0.1" : str]]
               [Some ["Eve" : str; "e@x.org" : str; "10.0.0.2" : str]]
               eq_refl eq_refl eq_refl eq_refl) _).
  vm_compute. reflexivity.
Defined.

(** X9: a row with fewer values than there are columns raises IndexError
    while its message is built: nothing of that row is logged, the lines
    of the rows before it stay, and the run ends there. *)
Theorem X9_short_row_raises w rows row later :
  connect_ok w = true -> execute_ok w = true ->
  fetches w = map Some rows ++ Some row :: later ->
  complete_rows w rows = true ->
  length row < length (description w) ->
  row_message (description w) row = inl IndexError
  /\ main w =
     (connect_event w :: ECursor :: EExecute "SELECT * FROM users;"
        :: logged w rows 0, inl IndexError).
Proof.
  intros Hc He Hf Hr Hlt.
  pose proof (row_message_short _ _ Hlt) as Hm. split; [exact Hm|].
  rewrite main_cases, Hc, He, Hf.
  rewrite rows_loop_app by now apply complete_rows_spec.
  cbn [rows_loop]. rewrite Hm. cbn [raise fst snd]. now rewrite app_nil_r.
Qed.

(** A row of two values for three columns. *)
Lemma X9_witness :
  main (sample_world [Some ["Bob" : str; "b@x.org" : str]])
  = ([EConnect "root" "" "localhost" None; ECursor;
      EExecute "SELECT * FROM users;"],
     inl IndexError).
Proof.
  exact (proj2 (X9_short_row_raises
                  (sample_world [Some ["Bob" : str; "b@x.org" : str]])
                  [] ["Bob" : str; "b@x.org" : str] []
                  eq_refl eq_refl eq_refl eq_refl (le_n 3))).
Defined.

(** *** What is logged of a row *)

Lemma well_formed_PII : well_formed PII_FIELDS ";" = true.
Proof. reflexivity. Qed.

Lemma is_pii_in k : is_pii k = true -> In k PII_FIELDS.
Proof.
  unfold is_pii. intros H. apply existsb_exists in H as [f [Hf E]].
  apply str_eqb_eq in E. now subst.
Qed.

(** Pairs joined with a semicolon and a space are redacted one by one. *)
Lemma redact_join_space fields redaction pairs :
  well_formed fields ";" = true -> spaceless fields = true ->
  redact fields [";"%char] redaction (Py.join [";"%char; " "%char] pairs) =
  Py.join [";"%char; " "%char] (map (redact fields [";"%char] redaction) pairs).
Proof.
  intros Hwf Hsp. induction pairs as [|p ps IH]; [apply redact_nil|].
  destruct ps as [|p2 ps]; [reflexivity|].
  remember (p2 :: ps) as rest eqn:Hrest.
  assert (E : forall (x : str) (xs : list str), xs <> [] ->
            Py.join [";"%char; " "%char] (x :: xs) =
            x ++ ";"%char :: [] ++ " "%char :: Py.join [";"%char; " "%char] xs).
  { intros x [|y ys] Hne; [congruence|]. cbn [Py.join]. reflexivity. }
  cbn [map]. rewrite !E by (subst rest; cbn [map]; discriminate).
  rewrite (redact_cut_any fields redaction ";"%char) by assumption.
  rewrite (redact_header fields [";"%char] redaction []) by (assumption || reflexivity).
  now rewrite IH.
Qed.

Lemma redact_pii_pair k v :
  is_pii k = true -> Py.mem ";" v = false ->
  redact PII_FIELDS ";" REDACTION (k ++ "=" ++ v) = k ++ "=" ++ REDACTION.
Proof.
  intros Hk Hv. apply is_pii_in in Hk.
  rewrite (redact_value_token PII_FIELDS REDACTION ";"%char).
  - now apply redact_token_key.
  - reflexivity.
  - rewrite !forallb_app.
    rewrite (well_formed_names PII_FIELDS ";"%char well_formed_PII k Hk).
    cbn [forallb list_ascii_of_string andb].
    change (value_char [";"%char] "=") with true. cbn [andb].
    apply forallb_forall. intros x Hx. rewrite value_char_single.
    apply negb_true_iff. destruct (Ascii.eqb_spec x ";"%char) as [->|]; [|reflexivity].
    apply mem_false_iff in Hv. contradiction.
Qed.

Lemma redact_clean_pair kv :
  clean_pair kv = true ->
  redact PII_FIELDS ";" REDACTION (fst kv ++ "=" ++ snd kv) = masked_pair kv.
Proof.
  unfold clean_pair, masked_pair. destruct (is_pii (fst kv)) eqn:E; intros H.
  - apply redact_pii_pair; [assumption | now apply negb_true_iff].
  - destruct (first_occurrence PII_FIELDS _) eqn:E2; [discriminate|].
    apply (redact_untouched PII_FIELDS REDACTION ";"%char);
      [reflexivity | now apply first_occurrence_none].
Qed.

Lemma log_line_pairs now pairs :
  Py.mem "=" now = false ->
  log_line now (Py.join "; " pairs) =
  header (mkRecord "user_data" "INFO" now [])
  ++ Py.join "; " (map (redact PII_FIELDS ";" REDACTION) pairs).
Proof.
  intros Hnow. unfold log_line.
  rewrite redact_rendered.
  - cbn [message]. f_equal.
    apply (redact_join_space PII_FIELDS REDACTION pairs); reflexivity.
  - reflexivity.
  - cbn [name levelname asctime]. rewrite !mem_app, Hnow. reflexivity.
Qed.

Lemma log_line_clean now columns row :
  Py.mem "=" now = false ->
  forallb clean_pair (combine columns row) = true ->
  log_line now (Py.join "; " (row_pairs columns row)) =
  header (mkRecord "user_data" "INFO" now [])
  ++ Py.join "; " (map masked_pair (combine columns row)).
Proof.
  intros Hnow Hc. rewrite log_line_pairs by assumption. do 2 f_equal.
  unfold row_pairs. rewrite map_map. apply map_ext_in.
  intros kv Hin. rewrite forallb_forall in Hc.
  now apply redact_clean_pair, Hc.
Qed.

Lemma logged_clean w rows : forall n,
  (forall i, Py.mem "=" (clock w i) = false) ->
  clean_rows (description w) rows = true ->
  logged w rows n = masked_lines w rows n.
Proof.
  induction rows as [|row rows IH]; intros n Hclock Hc; [reflexivity|].
  unfold clean_rows in Hc. cbn [forallb] in Hc.
  apply andb_prop in Hc as [Hrow Hrows].
  cbn [logged masked_lines].
  rewrite log_line_clean by auto. f_equal. now apply IH.
Qed.

(** X10: what the program logs.  In a run in which nothing fails, over
    rows whose personal values hold no semicolon and whose other pairs
    hold no name of personal data followed by the equals sign, each line
    is the header followed by the pairs of the row joined with a semicolon
    and a space, the value of every column of [PII_FIELDS] replaced by
    [***] and every other pair as it is. *)
Theorem X10_rows_logged_masked w rows :
  connect_ok w = true -> execute_ok w = true ->
  fetches w = map Some rows ->
  complete_rows w rows = true ->
  (forall i, Py.mem "=" (clock w i) = false) ->
  clean_rows (description w) rows = true ->
  main w =
    (connect_event w :: ECursor :: EExecute "SELECT * FROM users;"
       :: masked_lines w rows 0 ++ [ECloseCursor; ECloseDb], inr tt).
Proof.
  intros Hc He Hf Hr Hclock Hclean.
  rewrite (main_success w rows Hc He Hf Hr).
  now rewrite logged_clean.
Qed.

(** A run over two rows. *)
Lemma X10_witness :
  main (sample_world
          [Some ["Bob" : str; "b@x.org" : str; "10.0.0.1" : str];
           Some ["Eve" : str; "e@x.org" : str; "10.0.0.2" : str]])
  = ([EConnect "root" "" "localhost" None; ECursor;
      EExecute "SELECT * FROM users;";
      ELog "[HOLBERTON] user_data INFO 2019-11-19 18:37:59,596: name=***; email=***; ip=10.0.0.1";
      ELog "[HOLBERTON] user_data INFO 2019-11-19 18:37:59,596: name=***; email=***; ip=10.0.0.2";
      ECloseCursor; ECloseDb],
     inr tt).
Proof.
  refine (eq_trans
            (X10_rows_logged_masked
               (sample_world
                  [Some ["Bob" : str; "b@x.org" : str; "10.0.0.1" : str];
                   Some ["Eve" : str; "e@x.org" : str; "10.0.0.2" : str]])
               [["Bob" : str; "b@x.org" : str; "10.0.0.1" : str];
                ["Eve" : str; "e@x.org" : str; "10.0.0.2" : str]]
               eq_refl eq_refl eq_refl eq_refl (fun _ => eq_refl) eq_refl) _).
  vm_compute. reflexivity.
Defined.

(** *** What is not logged of a row *)

Lemma same_public_complete columns : forall row1 row2,
  same_public columns row1 row2 = true ->
  length columns <= length row1 /\ length columns <= length row2.
Proof.
  induction columns as [|k ks IH]; intros row1 row2 H; [simpl; lia|].
  destruct row1 as [|v1 r1], row2 as [|v2 r2]; try discriminate.
  cbn [same_public] in H. apply andb_prop in H as [_ H].
  destruct (IH _ _ H). simpl. lia.
Qed.

Lemma same_public_pairs columns : forall row1 row2,
  same_public columns row1 row2 = true ->
  map (redact PII_FIELDS ";" REDACTION) (row_pairs columns row1) =
  map (redact PII_FIELDS ";" REDACTION) (row_pairs columns row2).
Proof.
  induction columns as [|k ks IH]; intros row1 row2 H; [reflexivity|].
  destruct row1 as [|v1 r1], row2 as [|v2 r2]; try discriminate.
  cbn [same_public] in H. apply andb_prop in H as [Hk H].
  unfold row_pairs in *. cbn [combine map fst snd]. rewrite (IH _ _ H).
  f_equal. destruct (is_pii k) eqn:E.
  - apply andb_prop in Hk as [H1 H2].
    rewrite !redact_pii_pair; auto; now apply negb_true_iff.
  - apply str_eqb_eq in Hk. now subst.
Qed.

Lemma logged_same_public w1 w2 rows1 : forall rows2 n,
  description w1 = description w2 -> clock w1 = clock w2 ->
  (forall i, Py.mem "=" (clock w1 i) = false) ->
  same_public_rows (description w1) rows1 rows2 = true ->
  logged w1 rows1 n = logged w2 rows2 n.
Proof.
  induction rows1 as [|r1 rows1 IH]; intros [|r2 rows2] n Hd Hcl Hclock H;
    try discriminate; [reflexivity|].
  cbn [same_public_rows] in H. apply andb_prop in H as [Hr H].
  cbn [logged]. rewrite (IH rows2 (S n) Hd Hcl Hclock H).
  do 2 f_equal. rewrite <- Hd, <- Hcl.
  rewrite !log_line_pairs by apply Hclock.
  f_equal. f_equal. now apply same_public_pairs.
Qed.

Lemma same_public_rows_complete w : forall rows1 rows2,
  same_public_rows (description w) rows1 rows2 = true ->
  Forall (fun row => length (description w) <= length row) rows1
  /\ Forall (fun row => length (description w) <= length row) rows2.
Proof.
  induction rows1 as [|r1 rows1 IH]; intros [|r2 rows2] H;
    try discriminate; [split; constructor|].
  cbn [same_public_rows] in H. apply andb_prop in H as [Hr H].
  destruct (IH _ H). destruct (same_public_complete _ _ _ Hr).
  split; constructor; assumption.
Qed.

(** X11: personal values do not reach the log.  Two runs over the same
    data source whose rows differ at most in the values of the columns of
    [PII_FIELDS], these values holding no semicolon, do and log exactly
    the same. *)
Theorem X11_personal_values_not_logged w rows1 rows2 :
  (forall i, Py.mem "=" (clock w i) = false) ->
  same_public_rows (description w) rows1 rows2 = true ->
  main (with_fetches w (map Some rows1)) =
  main (with_fetches w (map Some rows2)).
Proof.
  intros Hclock H.
  destruct (same_public_rows_complete w _ _ H) as [C1 C2].
  set (w1 := with_fetches w (map Some rows1)).
  set (w2 := with_fetches w (map Some rows2)).
  assert (D1 : description w1 = description w) by reflexivity.
  assert (D2 : description w2 = description w) by reflexivity.
  assert (K1 : clock w1 = clock w) by reflexivity.
  assert (K2 : clock w2 = clock w) by reflexivity.
  assert (E : connect_event w1 = connect_event w2) by reflexivity.
  rewrite (main_cases w1), (main_cases w2).
  change (connect_ok w1) with (connect_ok w).
  change (connect_ok w2) with (connect_ok w).
  change (execute_ok w1) with (execute_ok w).
  change (execute_ok w2) with (execute_ok w).
  change (fetches w1) with (map Some rows1).
  change (fetches w2) with (map Some rows2).
  rewrite E.
  destruct (connect_ok w); [|reflexivity].
  destruct (execute_ok w); [|reflexivity].
  rewrite <- D1 in C1. rewrite <- D2 in C2.
  rewrite (rows_loop_rows w1 rows1 0 C1), (rows_loop_rows w2 rows2 0 C2).
  rewrite (logged_same_public w1 w2 rows1 rows2 0); try reflexivity.
  - rewrite K1. exact Hclock.
  - rewrite D1. exact H.
Qed.

(** Bob and Eve at the same address leave the same log. *)
Lemma X11_witness :
  main (with_fetches (sample_world [])
          (map Some [["Bob" : str; "b@x.org" : str; "10.0.0.1" : str]])) =
  main (with_fetches (sample_world [])
          (map Some [["Eve" : str; "e@x.org" : str; "10.0.0.1" : str]])).
Proof.
  exact (X11_personal_values_not_logged
           (sample_world [])
           [["Bob" : str; "b@x.org" : str; "10.0.0.1" : str]]
           [["Eve" : str; "e@x.org" : str; "10.0.0.1" : str]]
           (fun _ => eq_refl) eq_refl).
Defined.

(** ** What [get_logger] does when called again *)

